(** * reactit-auth: token lifecycle of the [AuthProvider] component

    A shallow embedding of the TypeScript sources

    - [token.ts]    ([coerceExpiration], [isTokenBundleValid]),
    - [types.ts]    ([AuthState], [AuthActionResult]),
    - [provider.tsx] ([AuthProvider]: reconciliation effect, expiration
      timers, token-change notification, [processExit], [processResult],
      [signInAsync], [renewTokenAsync], [signOutAsync]),
    - [hooks.ts]    ([useAuth], [useIsAuthenticated]) and
    - [guard.tsx]   ([AuthGuard]).

    Conventions of the embedding.

    - A JavaScript [number] that holds a UNIX time in milliseconds or a
      number of seconds is an integer of [Z]; [NaN] and fractions are
      outside the model.
    - [x?: T] is [option T], with [None] for [undefined].
    - JavaScript truthiness is written out where the source tests a value
      with [!x], [!!x] or [x ? a : b].
    - [Date.now()] reads a clock that stands still while synchronous code
      runs and may advance at every [await]. *)

From Stdlib Require Import ZArith String List Bool Lia.
Import ListNotations.
Local Open Scope string_scope.
Local Open Scope list_scope.
Local Open Scope Z_scope.

Set Implicit Arguments.

(** ** JavaScript values and truthiness *)

(** The values a caller may use for the generic parameters [U] (user),
    [SI], [RF] and [SO] (inputs of the three operations).  An object or an
    array is named by its reference: only its truthiness matters here. *)
Inductive jsval : Type :=
| JNull
| JBool (b : bool)
| JNum (n : Z)
| JStr (s : string)
| JObj (ref : nat).

Definition truthy_string (s : string) : bool :=
  match s with
  | EmptyString => false
  | String _ _ => true
  end.

Definition truthy_number (n : Z) : bool := negb (Z.eqb n 0).

Definition truthy (v : jsval) : bool :=
  match v with
  | JNull => false
  | JBool b => b
  | JNum n => truthy_number n
  | JStr s => truthy_string s
  | JObj _ => true
  end.

(** Truthiness of an optional property: [undefined] is falsy. *)
Definition truthy_opt {A : Type} (t : A -> bool) (o : option A) : bool :=
  match o with
  | Some a => t a
  | None => false
  end.

(** ** token.ts *)

Definition Token : Type := string.

Record TokenBundle : Type := mkBundle {
  token : Token;
  (* stored as UNIX time; if not present the token never expires *)
  expiresAt : option Z
}.

(** [number | Date | undefined]: a number of seconds or a [Date], given by
    its [getTime()]. *)
Inductive expiration : Type :=
| ExpNumber (seconds : Z)
| ExpDate (time : Z).

(** [coerceExpiration(exp)]; [now] is the value of [Date.now()].  The last
    branch of the source, which throws, is not reachable from a value of
    the declared type. *)
Definition coerceExpiration (now : Z) (exp : option expiration) : option Z :=
  match exp with
  | Some (ExpNumber n) => Some (now + n * 1000)
  | Some (ExpDate t) => Some t
  | None => None
  end.

(** [isTokenBundleValid(bundle)]:
    [!!bundle.token && (!bundle.expiresAt || bundle.expiresAt >= Date.now())]. *)
Definition isTokenBundleValid (now : Z) (bundle : TokenBundle) : bool :=
  truthy_string (token bundle)
  && (negb (truthy_opt truthy_number (expiresAt bundle))
      || match expiresAt bundle with
         | Some e => now <=? e
         | None => false
         end).

(** The validity rule in the words of the specification: the token is not
    empty and there is no [expiresAt] or [expiresAt >= now]. *)
Definition spec_isValid (now : Z) (bundle : TokenBundle) : bool :=
  negb (String.eqb (token bundle) EmptyString)
  && match expiresAt bundle with
     | None => true
     | Some e => now <=? e
     end.

(** ** types.ts *)

Record AuthState : Type := mkState {
  initialized : bool;
  auth : option TokenBundle;
  renew : option TokenBundle;
  user : option jsval
}.

Record AuthActionResult : Type := mkResult {
  res_token : Token;
  res_tokenExpiration : option expiration;
  res_renew : option Token;
  res_renewExpiration : option expiration;
  res_user : option jsval
}.

(** ** hooks.ts and guard.tsx *)

(** What [useAuth] returns, without the actions. *)
Record UseAuthReturn : Type := mkUseAuth {
  ret_initialized : bool;
  ret_user : option jsval;
  isAuthenticated : bool;
  isRenewEnabled : bool
}.

(** [useAuth()] on the state held by the context: [auth] and [renew] are
    objects when present, and an object is truthy whatever it holds. *)
Definition useAuth (ctx : AuthState) : UseAuthReturn :=
  {| ret_initialized := initialized ctx;
     ret_user := user ctx;
     isAuthenticated := truthy_opt (fun _ : TokenBundle => true) (auth ctx);
     isRenewEnabled := truthy_opt (fun _ : TokenBundle => true) (renew ctx) |}.

Definition useIsAuthenticated (ctx : AuthState) : bool :=
  isAuthenticated (useAuth ctx).

Definition useAuthUser (ctx : AuthState) : option jsval :=
  ret_user (useAuth ctx).

Definition useAuthToken (ctx : AuthState) : option Token :=
  option_map token (auth ctx).

(** [AuthGuard({ showAuth = true, showUnAuth, children })]: [true] when the
    children are rendered. *)
Definition AuthGuard (showAuth showUnAuth : option bool) (ctx : AuthState)
  : bool :=
  let showAuth' := match showAuth with Some b => b | None => true end in
  let a := useIsAuthenticated ctx in
  (a && showAuth') || (negb a && truthy_opt (fun b : bool => b) showUnAuth).

(** ** provider.tsx: configuration *)

(** How the promise returned by a callback of the application settles. *)
Inductive settled (A : Type) : Type :=
| Fulfilled (a : A)
| Failed (reason : jsval).
Arguments Failed {A} reason.

(** A callback [(ctx, input) => Promise<A>]. *)
Definition callback (A : Type) : Type :=
  AuthState -> option jsval -> settled A.

(** [AuthProviderProps].  [onTokenChange] returns nothing that the provider
    uses, so only its presence is kept; [authStorage] and [authPrefix]
    select where the state is stored and play no part below. *)
Record AuthProviderProps : Type := mkProps {
  devToken : option string;
  devSignedIn : bool;
  devUser : option jsval;
  doSignIn : option (callback AuthActionResult);
  doRenew : option (callback AuthActionResult);
  doSignOut : option (callback unit);
  onTokenChange : bool;
  renewOnMount : bool
}.

(** What an [async] function of the provider throws: an [Error] created by
    the provider itself, or the reason a callback rejected with. *)
Inductive exn : Type :=
| ProviderError (message : string)
| CallbackRejection (reason : jsval).

Inductive outcome (A : Type) : Type :=
| Resolved (a : A)
| Rejected (e : exn).
Arguments Rejected {A} e.

Definition settle {A : Type} (s : settled A) : outcome A :=
  match s with
  | Fulfilled a => Resolved a
  | Failed r => Rejected (CallbackRejection r)
  end.

(** ** provider.tsx: the effects of the component's functions *)

(** The argument of [setState]: a value, or a function of the latest state
    (which may read [Date.now()] when it runs). *)
Inductive setter : Type :=
| SetValue (next : AuthState)
| SetUpdater (f : Z -> AuthState -> AuthState).

Inductive callee : Type := DoSignIn | DoRenew | DoSignOut.

(** The code of the provider as a tree of its effects.  [AwaitResult] and
    [AwaitVoid] are [await callback(ctx, input)]; [AwaitRenewToken body] is
    [await renewTokenAsync(input)], where [body] is the function wrapped
    by [useSharedPromise], applied to [input].  The continuation of an
    [await] receives the outcome, which is how [try]/[catch] is written. *)
Inductive prog (A : Type) : Type :=
| Ret (a : A)
| Throw (e : exn)
| DateNow (k : Z -> prog A)
| SetState (u : setter) (k : prog A)
| ReadIsFirst (k : bool -> prog A)
| WriteIsFirst (b : bool) (k : prog A)
| AwaitResult (who : callee) (f : callback AuthActionResult)
    (ctx : AuthState) (input : option jsval)
    (k : outcome AuthActionResult -> prog A)
| AwaitVoid (who : callee) (f : callback unit)
    (ctx : AuthState) (input : option jsval)
    (k : outcome unit -> prog A)
| AwaitRenewToken (body : prog AuthActionResult)
    (k : outcome AuthActionResult -> prog A).
Arguments Throw {A} e.
Arguments AwaitRenewToken {A} body k.

Fixpoint bind {A B : Type} (p : prog A) (q : A -> prog B) : prog B :=
  match p with
  | Ret a => q a
  | Throw e => Throw e
  | DateNow k => DateNow (fun t => bind (k t) q)
  | SetState u k => SetState u (bind k q)
  | ReadIsFirst k => ReadIsFirst (fun b => bind (k b) q)
  | WriteIsFirst b k => WriteIsFirst b (bind k q)
  | AwaitResult who f ctx input k =>
      AwaitResult who f ctx input (fun o => bind (k o) q)
  | AwaitVoid who f ctx input k =>
      AwaitVoid who f ctx input (fun o => bind (k o) q)
  | AwaitRenewToken body k => AwaitRenewToken body (fun o => bind (k o) q)
  end.

Declare Scope prog_scope.
Delimit Scope prog_scope with prog.
Notation "x <- p ;; q" := (bind p (fun x => q))
  (at level 61, p at next level, right associativity) : prog_scope.
Notation "p ;; q" := (bind p (fun _ => q))
  (at level 61, right associativity) : prog_scope.

(** [await f(ctx, input)] outside of any [try]: a rejection is thrown on. *)
Definition await (who : callee) (f : callback AuthActionResult)
    (ctx : AuthState) (input : option jsval) : prog AuthActionResult :=
  AwaitResult who f ctx input
    (fun o => match o with
              | Resolved res => Ret res
              | Rejected e => Throw e
              end).

Definition setState (u : setter) : prog unit := SetState u (Ret tt).

(** ** provider.tsx: [AuthProvider] *)

Section AuthProvider.

Variable props : AuthProviderProps.

Local Open Scope prog_scope.

(** The first argument of [useStorage]: the state when the storage holds
    none. *)
Definition defaultState : AuthState :=
  match devToken props with
  | Some t =>
      if devSignedIn props && truthy_string t
      then {| initialized := true;
              auth := Some {| token := t; expiresAt := None |};
              renew := None; user := None |}
      else {| initialized := false; auth := None; renew := None;
              user := None |}
  | None => {| initialized := false; auth := None; renew := None;
               user := None |}
  end.

(** [processExit()]: [setState({ initialized: true })]. *)
Definition signedOut : AuthState :=
  {| initialized := true; auth := None; renew := None; user := None |}.

Definition processExit : prog unit := setState (SetValue signedOut).

(** The function that [processResult(res)] hands to [setState]. *)
Definition processResult_update (res : AuthActionResult)
    (now : Z) (_state : AuthState) : AuthState :=
  {| initialized := true;
     auth := Some {| token := res_token res;
                     expiresAt :=
                       coerceExpiration now (res_tokenExpiration res) |};
     renew :=
       match res_renew res with
       | Some r =>
           if truthy_string r
           then Some {| token := r;
                        expiresAt :=
                          coerceExpiration now (res_renewExpiration res) |}
           else renew _state
       | None => renew _state
       end;
     user :=
       match res_user res with
       | Some u => if truthy u then Some u else user _state
       | None => user _state
       end |}.

Definition processResult (res : AuthActionResult) : prog unit :=
  setState (SetUpdater (processResult_update res)).

(** [{ ...lastDev.current, tokenExpiration: undefined }]. *)
Definition devResult (t : string) : AuthActionResult :=
  {| res_token := t; res_tokenExpiration := None; res_renew := None;
     res_renewExpiration := None; res_user := devUser props |}.

(** The function wrapped into [signInAsync]; [state] is the state of the
    render that created it. *)
Definition signInAsync (state : AuthState) (input : option jsval)
  : prog AuthActionResult :=
  let withCallback :=
    match doSignIn props with
    | Some f =>
        res <- await DoSignIn f state input ;;
        processResult res ;;
        Ret res
    | None => Throw (ProviderError "AuthProvider has no sign-in function")
    end in
  match devToken props with
  | Some t =>
      if truthy_string t
      then processResult (devResult t) ;; Ret (devResult t)
      else withCallback
  | None => withCallback
  end.

(** The function wrapped into [renewTokenAsync]. *)
Definition renewTokenAsync (state : AuthState) (input : option jsval)
  : prog AuthActionResult :=
  match doRenew props with
  | None => Throw (ProviderError "AuthProvider has no renew function")
  | Some f =>
      res <- await DoRenew f state input ;;
      processResult res ;;
      Ret res
  end.

(** The function wrapped into [signOutAsync]: the [try] around the
    callback has an empty [catch]. *)
Definition signOutAsync (state : AuthState) (input : option jsval)
  : prog unit :=
  match doSignOut props with
  | Some f => AwaitVoid DoSignOut f state input (fun _ => processExit)
  | None => processExit
  end.

(** [setAuth: processResult]. *)
Definition setAuth (res : AuthActionResult) : prog unit :=
  processResult res.

(** [state.auth && !isTokenBundleValid(state.auth)], as a condition. *)
Definition invalid (now : Z) (bundle : option TokenBundle) : bool :=
  match bundle with
  | Some b => negb (isTokenBundleValid now b)
  | None => false
  end.

Definition absent {A : Type} (o : option A) : bool :=
  match o with
  | Some _ => false
  | None => true
  end.

(** The state committed by the reconciliation effect:
    [{ ...state, initialized: true, auth: authInv ? undefined : state.auth,
       renew: renewInv ? undefined : state.renew }]. *)
Definition reconciled (state : AuthState) (authInv renewInv : bool)
  : AuthState :=
  {| initialized := true;
     auth := if authInv then None else auth state;
     renew := if renewInv then None else renew state;
     user := user state |}.

(** The function given to [useAsyncEffect(..., [state])]. *)
Definition reconcile (state : AuthState) : prog unit :=
  DateNow (fun now1 =>
  let authInv := invalid now1 (auth state) in
  DateNow (fun now2 =>
  let renewInv := invalid now2 (renew state) in
  let invalidate :=
    ReadIsFirst (fun first =>
      (if first || authInv || renewInv
       then setState (SetValue (reconciled state authInv renewInv))
       else Ret tt) ;;
      WriteIsFirst false (Ret tt)) in
  ReadIsFirst (fun first =>
    if (first && renewOnMount props) || absent (auth state) || authInv
    then
      AwaitRenewToken (renewTokenAsync state None)
        (fun o => match o with
                  | Resolved _ => Ret tt          (* return *)
                  | Rejected _ => invalidate      (* Invalidate normally *)
                  end)
    else invalidate))).

(** [{ ...state, auth: undefined }] and [{ ...state, renew: undefined }]. *)
Definition withoutAuth (state : AuthState) : AuthState :=
  {| initialized := initialized state; auth := None;
     renew := renew state; user := user state |}.

Definition withoutRenew (state : AuthState) : AuthState :=
  {| initialized := initialized state; auth := auth state;
     renew := None; user := user state |}.

(** [taskSchedulePromise]: what the timer on [state.auth?.expiresAt]
    runs. *)
Definition taskSchedulePromise (state : AuthState) : prog unit :=
  AwaitRenewToken (renewTokenAsync state None)
    (fun o => match o with
              | Resolved _ => Ret tt
              | Rejected _ => setState (SetValue (withoutAuth state))
              end).

(** What the timer on [state.renew?.expiresAt] runs. *)
Definition expireRenew (state : AuthState) : prog unit :=
  setState (SetValue (withoutRenew state)).

End AuthProvider.

(** ** Running the provider's code *)

(** What an observer of the provider can see happen, latest first in a
    log: a callback invoked, a state handed to the store, a call of
    [renewTokenAsync] from the provider's own code, and the outcome a
    caller of an operation receives ([None] for the [void] of sign-out). *)
Inductive event : Type :=
| Invoked (who : callee) (ctx : AuthState) (input : option jsval)
| Committed (next : AuthState)
| CalledRenewToken
| Observed (id : nat) (o : outcome (option AuthActionResult)).

(** The mutable parts of a mounted provider: the state kept by
    [useStorage], the ref [isFirst], the clock, and the log. *)
Record world : Type := mkWorld {
  store : AuthState;
  isFirst : bool;
  clock : Z;
  log : list event
}.

Definition record (e : event) (w : world) : world :=
  {| store := store w; isFirst := isFirst w; clock := clock w;
     log := e :: log w |}.

(** Modelled from the spec: the setter returned by [useStorage] of the
    package [@reactit/hooks], which is not part of the sources (section
    4.4, [set(next | prev => next)]): a value replaces the state, a
    function is applied to the latest state. *)
Definition apply_setter (u : setter) (now : Z) (latest : AuthState)
  : AuthState :=
  match u with
  | SetValue next => next
  | SetUpdater f => f now latest
  end.

Definition commit (u : setter) (w : world) : world :=
  let next := apply_setter u (clock w) (store w) in
  {| store := next; isFirst := isFirst w; clock := clock w;
     log := Committed next :: log w |}.

Definition set_isFirst (b : bool) (w : world) : world :=
  {| store := store w; isFirst := b; clock := clock w; log := log w |}.

(** What the rest of the application may do while a function of the
    provider is suspended at an [await]: time passes, the store is
    changed, another reconciliation pass runs to its end. *)
Record tick : Type := mkTick {
  elapsed : Z;
  disturb : AuthState -> AuthState;
  ends_pass : bool
}.

Definition apply_tick (t : tick) (w : world) : world :=
  {| store := disturb t (store w);
     isFirst := isFirst w && negb (ends_pass t);
     clock := clock w + elapsed t;
     log := log w |}.

Definition suspend (env : list tick) (w : world) : world * list tick :=
  match env with
  | [] => (w, [])
  | t :: env' => (apply_tick t w, env')
  end.

(** One function of the provider run from its call to its end; [env]
    gives what happens at each [await] in turn (nothing once it is used
    up).  A call of [renewTokenAsync] runs its body: no other call of it
    is in flight in this reading. *)
Fixpoint exec {A : Type} (p : prog A) (env : list tick) (w : world)
  : outcome A * world * list tick :=
  match p with
  | Ret a => (Resolved a, w, env)
  | Throw e => (Rejected e, w, env)
  | DateNow k => exec (k (clock w)) env w
  | SetState u k => exec k env (commit u w)
  | ReadIsFirst k => exec (k (isFirst w)) env w
  | WriteIsFirst b k => exec k env (set_isFirst b w)
  | AwaitResult who f ctx input k =>
      let (w', env') := suspend env (record (Invoked who ctx input) w) in
      exec (k (settle (f ctx input))) env' w'
  | AwaitVoid who f ctx input k =>
      let (w', env') := suspend env (record (Invoked who ctx input) w) in
      exec (k (settle (f ctx input))) env' w'
  | AwaitRenewToken body k =>
      let '(o, w1, env1) := exec body env (record CalledRenewToken w) in
      let (w2, env2) := suspend env1 w1 in
      exec (k o) env2 w2
  end.

Definition callee_eqb (a b : callee) : bool :=
  match a, b with
  | DoSignIn, DoSignIn | DoRenew, DoRenew | DoSignOut, DoSignOut => true
  | _, _ => false
  end.

(** The invocations of a callback according to a log, earliest first. *)
Fixpoint invocations (who : callee) (l : list event)
  : list (AuthState * option jsval) :=
  match l with
  | [] => []
  | Invoked who' ctx input :: l' =>
      if callee_eqb who who'
      then invocations who l' ++ [(ctx, input)]
      else invocations who l'
  | _ :: l' => invocations who l'
  end.

(** The states handed to the store according to a log, earliest first. *)
Fixpoint commits (l : list event) : list AuthState :=
  match l with
  | [] => []
  | Committed s :: l' => commits l' ++ [s]
  | _ :: l' => commits l'
  end.

(** The number of calls of [renewTokenAsync] from the provider's code. *)
Fixpoint renewAttempts (l : list event) : nat :=
  match l with
  | [] => O
  | CalledRenewToken :: l' => S (renewAttempts l')
  | _ :: l' => renewAttempts l'
  end.

(** ** The mounted provider as a machine *)

(** Where a function of the provider stops when it is run up to its first
    [await]. *)
Inductive status (A : Type) : Type :=
| Done (o : outcome A)
| OnResult (o : outcome AuthActionResult)
    (k : outcome AuthActionResult -> prog A)
| OnVoid (o : outcome unit) (k : outcome unit -> prog A)
| OnRenewToken (body : prog AuthActionResult)
    (k : outcome AuthActionResult -> prog A).
Arguments OnResult {A} o k.
Arguments OnVoid {A} o k.
Arguments OnRenewToken {A} body k.

(** [advance p w]: the synchronous part of [p].  A callback is invoked at
    its [await]; [OnResult o k] keeps the outcome [o] its promise will
    settle with. *)
Fixpoint advance {A : Type} (p : prog A) (w : world) : status A * world :=
  match p with
  | Ret a => (Done (Resolved a), w)
  | Throw e => (Done (Rejected e), w)
  | DateNow k => advance (k (clock w)) w
  | SetState u k => advance k (commit u w)
  | ReadIsFirst k => advance (k (isFirst w)) w
  | WriteIsFirst b k => advance k (set_isFirst b w)
  | AwaitResult who f ctx input k =>
      (OnResult (settle (f ctx input)) k, record (Invoked who ctx input) w)
  | AwaitVoid who f ctx input k =>
      (OnVoid (settle (f ctx input)) k, record (Invoked who ctx input) w)
  | AwaitRenewToken body k =>
      (OnRenewToken body k, record CalledRenewToken w)
  end.

(** Who waits for the promise of an operation: code of the provider
    suspended at [await renewTokenAsync(...)], or a caller from the
    application, named by a number. *)
Inductive waiter (R : Type) : Type :=
| Continuation (k : outcome R -> prog unit)
| Caller (id : nat).
Arguments Caller {R} id.

(** The wrapped function of an operation in flight: suspended at its
    callback, whose promise will settle with [o], or already at its end. *)
Inductive running (R : Type) : Type :=
| Awaiting (o : outcome R) (k : outcome R -> prog R)
| Returned (o : outcome R).

Record flight (R : Type) : Type := mkFlight {
  runs : running R;
  waiters : list (waiter R)
}.

Definition pendingResult (st : status AuthActionResult)
  : option (running AuthActionResult) :=
  match st with
  | Done o => Some (Returned o)
  | OnResult o k => Some (Awaiting o k)
  | _ => None
  end.

Definition pendingVoid (st : status unit) : option (running unit) :=
  match st with
  | Done o => Some (Returned o)
  | OnVoid o k => Some (Awaiting o k)
  | _ => None
  end.

(** Modelled from the spec: [useSharedPromise] of the package
    [@reactit/hooks], which is not part of the sources (section 4.3,
    SingleFlightExecutor): when no invocation is in flight the function
    is invoked and its promise tracked; when one is in flight the existing
    promise is returned and the function is not invoked.  [None] when the
    function stops at something it does not do in these sources. *)
Definition share {R : Type} (pending : status R -> option (running R))
    (slot : option (flight R)) (body : prog R) (wt : waiter R) (w : world)
  : option (flight R * world) :=
  match slot with
  | Some fl =>
      Some ({| runs := runs fl; waiters := waiters fl ++ [wt] |}, w)
  | None =>
      let (st, w') := advance body w in
      match pending st with
      | Some r => Some ({| runs := r; waiters := [wt] |}, w')
      | None => None
      end
  end.

Record machine : Type := mkMachine {
  mworld :> world;
  (* the state seen by the functions created in the latest render *)
  rendered : AuthState;
  signInFlight : option (flight AuthActionResult);
  renewFlight : option (flight AuthActionResult);
  signOutFlight : option (flight unit)
}.

Definition with_world (m : machine) (w : world) : machine :=
  {| mworld := w; rendered := rendered m; signInFlight := signInFlight m;
     renewFlight := renewFlight m; signOutFlight := signOutFlight m |}.

Definition with_signIn (m : machine) (w : world)
    (fl : option (flight AuthActionResult)) : machine :=
  {| mworld := w; rendered := rendered m; signInFlight := fl;
     renewFlight := renewFlight m; signOutFlight := signOutFlight m |}.

Definition with_renew (m : machine) (w : world)
    (fl : option (flight AuthActionResult)) : machine :=
  {| mworld := w; rendered := rendered m; signInFlight := signInFlight m;
     renewFlight := fl; signOutFlight := signOutFlight m |}.

Definition with_signOut (m : machine) (w : world)
    (fl : option (flight unit)) : machine :=
  {| mworld := w; rendered := rendered m; signInFlight := signInFlight m;
     renewFlight := renewFlight m; signOutFlight := fl |}.

(** A function of the provider that nobody awaits (an effect, a timer's
    task, the rest of such a function after its [await]) is run up to its
    end or up to [await renewTokenAsync(...)], where it joins or starts
    the flight of the renewal. *)
Definition spawn (task : prog unit) (m : machine) : option machine :=
  let (st, w) := advance task m in
  match st with
  | Done _ => Some (with_world m w)
  | OnRenewToken body k =>
      match share pendingResult (renewFlight m) body (Continuation k) w with
      | Some (fl, w') => Some (with_renew m w' (Some fl))
      | None => None
      end
  | _ => None
  end.

(** The wrapped function of a flight resumes when its callback settles and
    runs to its end. *)
Definition finish {R : Type} (r : running R) (w : world)
  : option (outcome R * world) :=
  match r with
  | Returned o => Some (o, w)
  | Awaiting o k =>
      match advance (k o) w with
      | (Done o', w') => Some (o', w')
      | _ => None
      end
  end.

Definition payload {R : Type} (p : R -> option AuthActionResult)
    (o : outcome R) : outcome (option AuthActionResult) :=
  match o with
  | Resolved r => Resolved (p r)
  | Rejected e => Rejected e
  end.

(** The promise of an operation settles: those who wait resume in the
    order in which they started to wait. *)
Fixpoint deliver {R : Type} (p : R -> option AuthActionResult)
    (o : outcome R) (ws : list (waiter R)) (m : machine) : option machine :=
  match ws with
  | [] => Some m
  | Caller id :: ws' =>
      deliver p o ws' (with_world m (record (Observed id (payload p o)) m))
  | Continuation k :: ws' =>
      match spawn (k o) m with
      | Some m' => deliver p o ws' m'
      | None => None
      end
  end.

Inductive operation : Type := OpSignIn | OpRenew | OpSignOut.

(** What can happen to a mounted provider. *)
Inductive label : Type :=
| Render                         (* React renders it with the stored state *)
| Elapse (ms : Z)                (* time passes *)
| RunReconcile                   (* the effect on [state] runs *)
| FireAuthTimer                  (* the timer on [state.auth?.expiresAt] *)
| FireRenewTimer                 (* the timer on [state.renew?.expiresAt] *)
| CallSignIn (id : nat) (input : option jsval)
| CallRenewToken (id : nat) (input : option jsval)
| CallSignOut (id : nat) (input : option jsval)
| CallSetAuth (res : AuthActionResult)
| Settle (op : operation).       (* the promise of an operation settles *)

(** Modelled from the spec: [useScheduledEffect] of the package
    [@reactit/hooks], which is not part of the sources (section 4.2,
    ExpirationScheduler): no timer without an instant, and the callback
    fires once the instant is reached. *)
Definition due (now : Z) (bundle : option TokenBundle) : bool :=
  match bundle with
  | Some b =>
      match expiresAt b with
      | Some t => t <=? now
      | None => false
      end
  | None => false
  end.

Section Machine.

Variable props : AuthProviderProps.

(** The provider when it mounts: [useStorage] gives the stored state, or
    the default when there is none; [isFirst] is [useRef(true)]. *)
Definition mount (stored : option AuthState) (now : Z) : machine :=
  let s := match stored with
           | Some s => s
           | None => defaultState props
           end in
  {| mworld := {| store := s; isFirst := true; clock := now; log := [] |};
     rendered := s;
     signInFlight := None; renewFlight := None; signOutFlight := None |}.

Definition step (l : label) (m : machine) : option machine :=
  match l with
  | Render =>
      Some {| mworld := mworld m; rendered := store m;
              signInFlight := signInFlight m;
              renewFlight := renewFlight m;
              signOutFlight := signOutFlight m |}
  | Elapse ms =>
      if 0 <=? ms
      then Some (with_world m {| store := store m; isFirst := isFirst m;
                                 clock := clock m + ms; log := log m |})
      else None
  | RunReconcile => spawn (reconcile props (rendered m)) m
  | FireAuthTimer =>
      if due (clock m) (auth (rendered m))
      then spawn (taskSchedulePromise props (rendered m)) m
      else None
  | FireRenewTimer =>
      if due (clock m) (renew (rendered m))
      then spawn (expireRenew (rendered m)) m
      else None
  | CallSignIn id input =>
      match share pendingResult (signInFlight m)
              (signInAsync props (rendered m) input) (Caller id) m with
      | Some (fl, w) => Some (with_signIn m w (Some fl))
      | None => None
      end
  | CallRenewToken id input =>
      match share pendingResult (renewFlight m)
              (renewTokenAsync props (rendered m) input) (Caller id) m with
      | Some (fl, w) => Some (with_renew m w (Some fl))
      | None => None
      end
  | CallSignOut id input =>
      match share pendingVoid (signOutFlight m)
              (signOutAsync props (rendered m) input) (Caller id) m with
      | Some (fl, w) => Some (with_signOut m w (Some fl))
      | None => None
      end
  | CallSetAuth res => spawn (setAuth res) m
  | Settle OpSignIn =>
      match signInFlight m with
      | Some fl =>
          match finish (runs fl) m with
          | Some (o, w) => deliver Some o (waiters fl) (with_signIn m w None)
          | None => None
          end
      | None => None
      end
  | Settle OpRenew =>
      match renewFlight m with
      | Some fl =>
          match finish (runs fl) m with
          | Some (o, w) => deliver Some o (waiters fl) (with_renew m w None)
          | None => None
          end
      | None => None
      end
  | Settle OpSignOut =>
      match signOutFlight m with
      | Some fl =>
          match finish (runs fl) m with
          | Some (o, w) =>
              deliver (fun _ : unit => None) o (waiters fl)
                (with_signOut m w None)
          | None => None
          end
      | None => None
      end
  end.

Fixpoint run (ls : list label) (m : machine) : option machine :=
  match ls with
  | [] => Some m
  | l :: ls' =>
      match step l m with
      | Some m' => run ls' m'
      | None => None
      end
  end.

End Machine.

(** ** provider.tsx: the token-change notification *)

(** A call [onTokenChange(state, token)]: made while the provider renders,
    or by the effect after it has rendered. *)
Inductive notice : Type :=
| DuringRender (ctx : AuthState) (tok : Token)
| AfterRender (ctx : AuthState) (tok : option Token).

(** The ref [mounted] and the dependency [state.auth?.token] that the
    effect had at the previous render ([None] before the first one). *)
Record notifier : Type := mkNotifier {
  mounted : bool;
  lastDeps : option (option Token)
}.

Definition unmounted : notifier :=
  {| mounted := false; lastDeps := None |}.

Definition token_eqb (a b : option Token) : bool :=
  match a, b with
  | Some x, Some y => String.eqb x y
  | None, None => true
  | _, _ => false
  end.

Section Notification.

Variable props : AuthProviderProps.

(** One render of the provider with [state].  The effect is React's
    [useEffect(f, [state.auth?.token])], which is not part of the
    sources: [f] runs after the first render and after every render in
    which the dependency differs from that of the render before. *)
Definition renderNotify (n : notifier) (state : AuthState)
  : notifier * list notice :=
  let tok := useAuthToken state in
  let early :=
    match tok with
    | Some t => onTokenChange props && truthy_string t && negb (mounted n)
    | None => false
    end in
  let changed :=
    match lastDeps n with
    | None => true
    | Some prev => negb (token_eqb prev tok)
    end in
  ({| mounted := mounted n || early; lastDeps := Some tok |},
   match tok with
   | Some t => if early then [DuringRender state t] else []
   | None => []
   end
   ++ (if changed && onTokenChange props
       then [AfterRender state tok]
       else []))%list.

(** The calls of [onTokenChange] per render, for successive renders. *)
Fixpoint notifyFrom (n : notifier) (states : list AuthState)
  : list (list notice) :=
  match states with
  | [] => []
  | s :: states' =>
      let (n', calls) := renderNotify n s in
      calls :: notifyFrom n' states'
  end.

Definition notifyTrace (states : list AuthState) : list (list notice) :=
  notifyFrom unmounted states.

End Notification.

(** The notification rule in the words of the specification: once if the
    loaded state is already authenticated, and thereafter once per change
    of the resolved token value. *)
Fixpoint spec_notifyChanges (prev : option Token) (states : list AuthState)
  : list (list notice) :=
  match states with
  | [] => []
  | s :: states' =>
      (if token_eqb prev (useAuthToken s)
       then []
       else [AfterRender s (useAuthToken s)])
      :: spec_notifyChanges (useAuthToken s) states'
  end.

Definition spec_notifyTrace (states : list AuthState) : list (list notice) :=
  match states with
  | [] => []
  | s :: states' =>
      match useAuthToken s with
      | Some t => [DuringRender s t]
      | None => []
      end
      :: spec_notifyChanges (useAuthToken s) states'
  end.

(** [processResult] in the words of the specification: the renew bundle is
    rebuilt when [result.renew] is supplied, and
    [user = result.user ?? previous user]. *)
Definition nullish (o : option jsval) : bool :=
  match o with
  | None => true
  | Some JNull => true
  | Some _ => false
  end.

Definition spec_processResult (res : AuthActionResult)
    (now : Z) (previous : AuthState) : AuthState :=
  {| initialized := true;
     auth := Some {| token := res_token res;
                     expiresAt :=
                       coerceExpiration now (res_tokenExpiration res) |};
     renew :=
       match res_renew res with
       | Some r =>
           Some {| token := r;
                   expiresAt :=
                     coerceExpiration now (res_renewExpiration res) |}
       | None => renew previous
       end;
     user := if nullish (res_user res) then user previous else res_user res |}.


(** The development token in use: [devToken] when it is a non-empty
    string, as [lastDev.current?.token] tests it. *)
Definition devTokenInUse (props : AuthProviderProps) : option string :=
  match devToken props with
  | Some t => if truthy_string t then Some t else None
  | None => None
  end.

(** The outcome, the final world and the state of the store at the end of
    a run. *)
Definition outcomeOf {A : Type} (r : outcome A * world * list tick)
  : outcome A := fst (fst r).

Definition worldOf {A : Type} (r : outcome A * world * list tick) : world :=
  snd (fst r).

(** The notifier after successive renders. *)
Definition notifierAfter (props : AuthProviderProps) (n : notifier)
    (states : list AuthState) : notifier :=
  fold_left (fun n' s => fst (renderNotify props n' s)) states n.

(** A state whose auth bundle holds a non-empty token. *)
Definition hasToken (s : AuthState) : bool :=
  truthy_opt truthy_string (useAuthToken s).

(** The outcomes received by the callers of the operations according to a
    log, earliest first. *)
Fixpoint observations (l : list event)
  : list (nat * outcome (option AuthActionResult)) :=
  match l with
  | [] => []
  | Observed id o :: l' => observations l' ++ [(id, o)]
  | _ :: l' => observations l'
  end.

(** The callers of an operation receive its outcome one after the other. *)
Definition observedBy {R : Type} (p : R -> option AuthActionResult)
    (o : outcome R) (ids : list nat) (w : world) : world :=
  fold_left (fun w' id => record (Observed id (payload p o)) w') ids w.

(** ** Sample data for the examples *)

Definition sampleResult : AuthActionResult :=
  {| res_token := "abc"; res_tokenExpiration := None;
     res_renew := None; res_renewExpiration := None;
     res_user := None |}.

(** A configuration whose three callbacks fulfil. *)
Definition sampleProps : AuthProviderProps :=
  {| devToken := None; devSignedIn := false; devUser := None;
     doSignIn := Some (fun _ _ => Fulfilled sampleResult);
     doRenew := Some (fun _ _ => Fulfilled sampleResult);
     doSignOut := Some (fun _ _ => Fulfilled tt);
     onTokenChange := true; renewOnMount := false |}.

(** A configuration whose renewal callback rejects, and a stored state
    whose auth bundle expired at [1000]. *)
Definition rejectingProps : AuthProviderProps :=
  {| devToken := None; devSignedIn := false; devUser := None;
     doSignIn := None;
     doRenew := Some (fun _ _ => Failed (JStr "revoked"));
     doSignOut := None;
     onTokenChange := true; renewOnMount := false |}.

Definition expiredState : AuthState :=
  {| initialized := false;
     auth := Some {| token := "abc"; expiresAt := Some 1000 |};
     renew := Some {| token := "r"; expiresAt := None |};
     user := None |}.

(** A configuration that renews on mount, with a renewal that fulfils. *)
Definition renewingProps : AuthProviderProps :=
  {| devToken := None; devSignedIn := false; devUser := None;
     doSignIn := None;
     doRenew := Some (fun _ _ => Fulfilled sampleResult);
     doSignOut := None;
     onTokenChange := true; renewOnMount := true |}.

(** ** provider.tsx: where the state is stored *)

(** The second argument of [useStorage]:
    [(devToken ? '$dev_' : '') + authPrefix], with the default of the
    parameter [authPrefix]. *)
Definition storagePrefix (devToken : option string)
    (authPrefix : option string) : string :=
  ((if truthy_opt truthy_string devToken then "$dev_" else EmptyString)
   ++ match authPrefix with
      | Some p => p
      | None => "auth_"
      end)%string.

(** ** Reading a log of notifications *)

(** The token a call of [onTokenChange] carries. *)
Definition noticeToken (n : notice) : option Token :=
  match n with
  | DuringRender _ t => Some t
  | AfterRender _ tok => tok
  end.

(** The token of the latest call among [calls], or [before] when there is
    none. *)
Definition latestToken (before : option Token) (calls : list notice)
  : option Token :=
  fold_left (fun _ n => noticeToken n) calls before.

Definition isDuringRender (n : notice) : bool :=
  match n with
  | DuringRender _ _ => true
  | AfterRender _ _ => false
  end.

(** ** Invariants of the mounted provider *)

Definition timerLabel (l : label) : bool :=
  match l with
  | FireAuthTimer | FireRenewTimer => true
  | _ => false
  end.

(** From [w] to [w'] only initialized states were handed to the store. *)
Definition clean (w w' : world) : Prop :=
  (exists news,
      commits (log w') = commits (log w) ++ news
      /\ forallb initialized news = true)
  /\ (store w' = store w \/ initialized (store w') = true).

(** A continuation that runs to its end without a further [await] and
    hands only initialized states to the store. *)
Definition settles {R A : Type} (k : outcome R -> prog A) : Prop :=
  forall (o : outcome R) (w : world),
    exists o' w', advance (k o) w = (Done o', w') /\ clean w w'.

Definition goodRunning {R : Type} (r : running R) : Prop :=
  match r with
  | Returned _ => True
  | Awaiting _ k => settles k
  end.

Definition goodWaiter {R : Type} (wt : waiter R) : Prop :=
  match wt with
  | Caller _ => True
  | Continuation k => settles k
  end.

Definition goodSlot {R : Type} (slot : option (flight R)) : Prop :=
  match slot with
  | None => True
  | Some fl => goodRunning (runs fl) /\ Forall goodWaiter (waiters fl)
  end.

Definition goodFlights (m : machine) : Prop :=
  goodSlot (signInFlight m) /\ goodSlot (renewFlight m)
  /\ goodSlot (signOutFlight m).

(** A wrapped function that stops cleanly, at its end or at its callback
    with a continuation that settles. *)
Definition goodBody {R : Type} (pending : status R -> option (running R))
    (body : prog R) : Prop :=
  forall w : world,
    exists st w', advance body w = (st, w') /\ clean w w'
                  /\ match pending st with
                     | Some r => goodRunning r
                     | None => True
                     end.

(** A task that stops cleanly, at its end or at
    [await renewTokenAsync(...)] with a continuation that settles. *)
Definition goodTask (task : prog unit) : Prop :=
  forall w : world,
    exists st w', advance task w = (st, w') /\ clean w w'
                  /\ match st with
                     | OnRenewToken body k =>
                         goodBody pendingResult body /\ settles k
                     | _ => True
                     end.

(** ** Invariants that hold with the timers too *)













(** * Properties *)

Unset Implicit Arguments.

(** ** Validity of a bundle *)

Lemma truthy_string_spec (s : string) :
  truthy_string s = true <-> s <> EmptyString.
Proof.
  destruct s; simpl; split; intro H; congruence.
Qed.

Lemma truthy_number_spec (n : Z) : truthy_number n = true <-> n <> 0.
Proof.
  unfold truthy_number. destruct (Z.eqb_spec n 0); simpl; split; intro H;
    congruence.
Qed.

Example isTokenBundleValid_fresh :
  isTokenBundleValid 1000 {| token := "abc"; expiresAt := Some 1500 |} = true.
Proof. reflexivity. Qed.

Example isTokenBundleValid_stale :
  isTokenBundleValid 1000 {| token := "abc"; expiresAt := Some 999 |} = false.
Proof. reflexivity. Qed.

Example isTokenBundleValid_empty :
  isTokenBundleValid 1000 {| token := EmptyString; expiresAt := None |}
  = false.
Proof. reflexivity. Qed.

(** C9: the code departs from the claim at [expiresAt = 0].  The bundle
    [{ token: "t", expiresAt: 0 }] has an [expiresAt], which is strictly
    in the past at time [1], so the claim (and the rule of the
    specification) make it invalid; [isTokenBundleValid] accepts it,
    because [!bundle.expiresAt] holds for [0] as it does for
    [undefined]. *)
Lemma isTokenBundleValid_accepts_epoch :
  let b := {| token := "t"; expiresAt := Some 0 |} in
  isTokenBundleValid 1 b = true
  /\ spec_isValid 1 b = false
  /\ ~ (token b <> EmptyString
        /\ (expiresAt b = None \/ exists e, expiresAt b = Some e /\ 1 <= e)).
Proof.
  simpl. split; [reflexivity|]. split; [reflexivity|].
  intros [_ [H | [e [H1 H2]]]]; [discriminate|].
  injection H1 as <-. lia.
Qed.

(** What [isTokenBundleValid] computes: [true] iff the token is not
    empty and the bundle has no [expiresAt], or its [expiresAt] is [0], or
    its [expiresAt] is at least [now]; so it agrees with the rule of the
    specification on every bundle whose [expiresAt] is not [0]. *)
Theorem isTokenBundleValid_iff (now : Z) (b : TokenBundle) :
  (isTokenBundleValid now b = true <->
     token b <> EmptyString
     /\ (expiresAt b = None \/ expiresAt b = Some 0
         \/ exists e, expiresAt b = Some e /\ now <= e))
  /\ (isTokenBundleValid now b = false <->
        token b = EmptyString
        \/ exists e, expiresAt b = Some e /\ e <> 0 /\ e < now).
Proof.
  unfold isTokenBundleValid.
  destruct b as [t [e|]]; simpl; destruct t as [|c t]; simpl.
  - split; split.
    + discriminate.
    + intros [H _]; congruence.
    + intros _; left; reflexivity.
    + reflexivity.
  - unfold truthy_number.
    destruct (Z.eqb_spec e 0) as [->|Hne]; simpl.
    + split; split.
      * intros _. split; [discriminate|]. right; left; reflexivity.
      * reflexivity.
      * discriminate.
      * intros [H | [e [H1 [H2 _]]]]; [discriminate|congruence].
    + destruct (Z.leb_spec now e) as [Hle|Hlt]; split; split.
      * intros _. split; [discriminate|].
        right; right; exists e; split; [reflexivity|assumption].
      * reflexivity.
      * discriminate.
      * intros [H | [e' [H1 [_ H3]]]]; [discriminate|].
        injection H1 as <-. lia.
      * discriminate.
      * intros [_ [H | [H | [e' [H1 H2]]]]]; try discriminate.
        -- congruence.
        -- injection H1 as <-. lia.
      * intros _. right. exists e. repeat split; assumption.
      * reflexivity.
  - split; split.
    + discriminate.
    + intros [H _]; congruence.
    + intros _; left; reflexivity.
    + reflexivity.
  - split; split.
    + intros _. split; [discriminate|]. left; reflexivity.
    + reflexivity.
    + discriminate.
    + intros [H | [e [H _]]]; discriminate.
Qed.

(** ** The authenticated status *)

Example useAuth_expired_bundle :
  let ctx := {| initialized := true;
                auth := Some {| token := "abc"; expiresAt := Some 5 |};
                renew := None; user := None |} in
  isTokenBundleValid 10 {| token := "abc"; expiresAt := Some 5 |} = false
  /\ isAuthenticated (useAuth ctx) = true.
Proof. split; reflexivity. Qed.

(** C10: the authenticated status of [useAuth], [useIsAuthenticated] and
    [AuthGuard] follows the presence of the auth bundle alone, not its
    validity: for every state that holds an auth bundle whose [expiresAt]
    is already in the past, [isAuthenticated] is [true] and [AuthGuard]
    renders its children according to [showAuth]; in general the status is
    [true] exactly when the state holds an auth bundle. *)
Theorem isAuthenticated_presence
    (ctx : AuthState) (b : TokenBundle) (e now : Z) :
  auth ctx = Some b -> expiresAt b = Some e -> e < now ->
  (isAuthenticated (useAuth ctx) = true
   /\ useIsAuthenticated ctx = true
   /\ forall showAuth showUnAuth,
        AuthGuard showAuth showUnAuth ctx
        = match showAuth with Some s => s | None => true end)
  /\ (forall ctx' : AuthState,
        isAuthenticated (useAuth ctx') = negb (absent (auth ctx'))
        /\ useIsAuthenticated ctx' = negb (absent (auth ctx'))
        /\ forall showAuth showUnAuth,
             AuthGuard showAuth showUnAuth ctx'
             = if absent (auth ctx')
               then match showUnAuth with Some s => s | None => false end
               else match showAuth with Some s => s | None => true end).
Proof.
  intros Hauth _ _. split.
  - unfold AuthGuard, useIsAuthenticated, useAuth. simpl. rewrite Hauth.
    simpl. split; [reflexivity|]. split; [reflexivity|].
    intros sa su. destruct sa as [[|]|]; reflexivity.
  - intros ctx'. unfold AuthGuard, useIsAuthenticated, useAuth. simpl.
    destruct (auth ctx') as [b'|]; simpl.
    + split; [reflexivity|]. split; [reflexivity|].
      intros sa su. destruct sa as [[|]|]; reflexivity.
    + split; [reflexivity|]. split; [reflexivity|].
      intros sa su. destruct su as [[|]|]; reflexivity.
Qed.

(** A state whose auth bundle expired at [5], seen at [10]. *)
Lemma isAuthenticated_presence_witness :
  let b := {| token := "abc"; expiresAt := Some 5 |} in
  let ctx := {| initialized := true; auth := Some b; renew := None;
                user := None |} in
  isTokenBundleValid 10 b = false
  /\ isAuthenticated (useAuth ctx) = true.
Proof.
  simpl. split; [reflexivity|].
  apply (isAuthenticated_presence
           {| initialized := true;
              auth := Some {| token := "abc"; expiresAt := Some 5 |};
              renew := None; user := None |}
           {| token := "abc"; expiresAt := Some 5 |} 5 10);
    [reflexivity | reflexivity | lia].
Defined.

(** ** Sign-out *)

Ltac run_await env :=
  destruct env as [|[dt dist ends] env]; simpl.

Example signOut_rejecting_callback :
  let props := {| devToken := None; devSignedIn := false; devUser := None;
                  doSignIn := None; doRenew := None;
                  doSignOut := Some (fun _ _ => Failed (JStr "offline"));
                  onTokenChange := false; renewOnMount := false |} in
  let s := {| initialized := true;
              auth := Some {| token := "abc"; expiresAt := None |};
              renew := Some {| token := "r"; expiresAt := None |};
              user := Some (JObj 1) |} in
  let w := {| store := s; isFirst := false; clock := 10; log := [] |} in
  exec (signOutAsync props s None) [] w
  = (Resolved tt,
     {| store := {| initialized := true; auth := None; renew := None;
                    user := None |};
        isFirst := false; clock := 10;
        log := [Committed signedOut; Invoked DoSignOut s None] |},
     []).
Proof. reflexivity. Qed.

(** C1: for every configuration, every state of the store and whatever
    happens while the callback is awaited, [signOutAsync] resolves (a
    rejection of [doSignOut] is not passed on) and leaves the store at
    [{ initialized: true }], with [auth], [renew] and [user] absent; the
    callback, when configured, is invoked once with the state and the
    input. *)
Theorem signOutAsync_clears
    (props : AuthProviderProps) (state : AuthState) (input : option jsval)
    (env : list tick) (w : world) :
  let r := exec (signOutAsync props state input) env w in
  outcomeOf r = Resolved tt
  /\ store (worldOf r)
     = {| initialized := true; auth := None; renew := None; user := None |}
  /\ invocations DoSignOut (log (worldOf r))
     = (invocations DoSignOut (log w)
        ++ match doSignOut props with
           | Some _ => [(state, input)]
           | None => []
           end)%list.
Proof.
  unfold signOutAsync, outcomeOf, worldOf.
  destruct (doSignOut props) as [f|]; simpl.
  - run_await env; repeat split; reflexivity.
  - repeat split. symmetry. apply app_nil_r.
Qed.

(** ** Renewal *)

Lemma commits_record_invoked who ctx input (w : world) :
  commits (log (record (Invoked who ctx input) w)) = commits (log w).
Proof. reflexivity. Qed.

Lemma suspend_log (env : list tick) (w : world) :
  log (fst (suspend env w)) = log w.
Proof. destruct env as [|t env]; reflexivity. Qed.

Example renewTokenAsync_rejecting_callback :
  let props := {| devToken := None; devSignedIn := false; devUser := None;
                  doSignIn := None;
                  doRenew := Some (fun _ _ => Failed (JStr "revoked"));
                  doSignOut := None;
                  onTokenChange := false; renewOnMount := false |} in
  let s := {| initialized := true;
              auth := Some {| token := "abc"; expiresAt := None |};
              renew := Some {| token := "r"; expiresAt := None |};
              user := Some (JObj 1) |} in
  let w := {| store := s; isFirst := false; clock := 10; log := [] |} in
  exec (renewTokenAsync props s None) [] w
  = (Rejected (CallbackRejection (JStr "revoked")),
     {| store := s; isFirst := false; clock := 10;
        log := [Invoked DoRenew s None] |},
     []).
Proof. reflexivity. Qed.

(** C6: without a [doRenew] callback [renewTokenAsync] rejects with the
    provider's error about the missing renew function, and nothing else
    happens; when the [doRenew] callback rejects, [renewTokenAsync]
    rejects with the callback's reason and commits nothing: the store is
    as the rest of the application left it while the callback was
    awaited.  The store is written only when the callback fulfils. *)
Theorem renewTokenAsync_failure
    (props : AuthProviderProps) (state : AuthState) (input : option jsval)
    (env : list tick) (w : world) :
  let r := exec (renewTokenAsync props state input) env w in
  match doRenew props with
  | None =>
      r = (Rejected (ProviderError "AuthProvider has no renew function"),
           w, env)
  | Some f =>
      invocations DoRenew (log (worldOf r))
      = (invocations DoRenew (log w) ++ [(state, input)])%list
      /\ match f state input with
         | Failed reason =>
             outcomeOf r = Rejected (CallbackRejection reason)
             /\ commits (log (worldOf r)) = commits (log w)
             /\ store (worldOf r) = store (fst (suspend env w))
         | Fulfilled res =>
             outcomeOf r = Resolved res
             /\ commits (log (worldOf r))
                = (commits (log w) ++ [store (worldOf r)])%list
         end
  end.
Proof.
  unfold renewTokenAsync, outcomeOf, worldOf.
  destruct (doRenew props) as [f|]; simpl; [|reflexivity].
  destruct (f state input) as [res|reason]; run_await env;
    repeat split; reflexivity.
Qed.

(** ** Sign-in *)

Lemma signInAsync_dev (props : AuthProviderProps) (t : string) state input :
  devTokenInUse props = Some t ->
  signInAsync props state input
  = bind (processResult (devResult props t))
         (fun _ => Ret (devResult props t)).
Proof.
  unfold devTokenInUse, signInAsync.
  destruct (devToken props) as [t'|]; [|discriminate].
  destruct (truthy_string t'); [|discriminate].
  intros [= ->]. reflexivity.
Qed.

Lemma signInAsync_real (props : AuthProviderProps) state input :
  devTokenInUse props = None ->
  signInAsync props state input
  = match doSignIn props with
    | Some f =>
        bind (await DoSignIn f state input)
             (fun res => bind (processResult res) (fun _ => Ret res))
    | None => Throw (ProviderError "AuthProvider has no sign-in function")
    end.
Proof.
  unfold devTokenInUse, signInAsync.
  destruct (devToken props) as [t'|]; [|reflexivity].
  destruct (truthy_string t'); [discriminate|reflexivity].
Qed.

Example signInAsync_development :
  let props := {| devToken := Some "dev"; devSignedIn := false;
                  devUser := Some (JObj 7);
                  doSignIn := Some (fun _ _ => Failed (JStr "never asked"));
                  doRenew := None; doSignOut := None;
                  onTokenChange := false; renewOnMount := false |} in
  let s := {| initialized := true; auth := None; renew := None;
              user := None |} in
  let w := {| store := s; isFirst := false; clock := 10; log := [] |} in
  exec (signInAsync props s (Some (JStr "credentials"))) [] w
  = (Resolved (devResult props "dev"),
     {| store := {| initialized := true;
                    auth := Some {| token := "dev"; expiresAt := None |};
                    renew := None; user := Some (JObj 7) |};
        isFirst := false; clock := 10;
        log := [Committed
                  {| initialized := true;
                     auth := Some {| token := "dev"; expiresAt := None |};
                     renew := None; user := Some (JObj 7) |}] |},
     []).
Proof. reflexivity. Qed.

(** C7, as stated, fails on the development user: with a development
    token and the development user [0], [signInAsync] resolves with a
    result that holds the user [0], but the state it commits keeps the
    previous user, because [processResult] takes [res.user] only when it
    is truthy. *)
Lemma signInAsync_devUser_counterexample :
  let props := {| devToken := Some "dev"; devSignedIn := false;
                  devUser := Some (JNum 0);
                  doSignIn := None; doRenew := None; doSignOut := None;
                  onTokenChange := false; renewOnMount := false |} in
  let s := {| initialized := true; auth := None; renew := None;
              user := Some (JObj 1) |} in
  let w := {| store := s; isFirst := false; clock := 10; log := [] |} in
  let r := exec (signInAsync props s None) [] w in
  outcomeOf r
  = Resolved {| res_token := "dev"; res_tokenExpiration := None;
                res_renew := None; res_renewExpiration := None;
                res_user := Some (JNum 0) |}
  /\ user (store (worldOf r)) = Some (JObj 1)
  /\ user (store (worldOf r)) <> devUser props.
Proof.
  simpl. repeat split. discriminate.
Qed.

(** C7, amended: with a development token in use, [signInAsync] invokes
    no callback, resolves with the result made of the development token,
    the development user and no expiration, and commits it through
    [processResult]: the committed state has [initialized = true], an
    auth bundle with the development token and no [expiresAt], the renew
    bundle of the latest state, and the development user when that one
    is truthy, otherwise the user of the latest state.  With no
    development token in use it invokes [doSignIn(state, input)], once,
    resolves or rejects as the callback does, and commits the callback's
    result in the same way, or nothing when the callback rejects.  It
    rejects with the provider's error about the missing sign-in function
    exactly when neither a development token is in use nor [doSignIn] is
    configured. *)
Theorem signInAsync_paths
    (props : AuthProviderProps) (state : AuthState) (input : option jsval)
    (env : list tick) (w : world) :
  let r := exec (signInAsync props state input) env w in
  match devTokenInUse props with
  | Some t =>
      let committed :=
        {| initialized := true;
           auth := Some {| token := t; expiresAt := None |};
           renew := renew (store w);
           user := if truthy_opt truthy (devUser props)
                   then devUser props
                   else user (store w) |} in
      r = (Resolved {| res_token := t; res_tokenExpiration := None;
                       res_renew := None; res_renewExpiration := None;
                       res_user := devUser props |},
           {| store := committed; isFirst := isFirst w; clock := clock w;
              log := Committed committed :: log w |},
           env)
  | None =>
      match doSignIn props with
      | Some f =>
          let awaited := fst (suspend env w) in
          invocations DoSignIn (log (worldOf r))
          = (invocations DoSignIn (log w) ++ [(state, input)])%list
          /\ outcomeOf r = settle (f state input)
          /\ match f state input with
             | Fulfilled res =>
                 store (worldOf r)
                 = {| initialized := true;
                      auth :=
                        Some {| token := res_token res;
                                expiresAt :=
                                  coerceExpiration (clock awaited)
                                    (res_tokenExpiration res) |};
                      renew :=
                        if truthy_opt truthy_string (res_renew res)
                        then option_map
                               (fun rn =>
                                  {| token := rn;
                                     expiresAt :=
                                       coerceExpiration (clock awaited)
                                         (res_renewExpiration res) |})
                               (res_renew res)
                        else renew (store awaited);
                      user := if truthy_opt truthy (res_user res)
                              then res_user res
                              else user (store awaited) |}
                 /\ commits (log (worldOf r))
                    = (commits (log w) ++ [store (worldOf r)])%list
             | Failed _ =>
                 store (worldOf r) = store awaited
                 /\ commits (log (worldOf r)) = commits (log w)
             end
      | None =>
          r = (Rejected (ProviderError "AuthProvider has no sign-in function"),
               w, env)
      end
  end
  /\ (outcomeOf r
      = Rejected (ProviderError "AuthProvider has no sign-in function")
      <-> devTokenInUse props = None /\ doSignIn props = None).
Proof.
  simpl. destruct (devTokenInUse props) as [t|] eqn:Hdev.
  - rewrite (signInAsync_dev props t state input Hdev).
    unfold outcomeOf, worldOf. simpl. split.
    + unfold commit, apply_setter, processResult_update, devResult. simpl.
      destruct (devUser props) as [u|]; simpl;
        [destruct (truthy u)|]; reflexivity.
    + split; [discriminate|]. intros [H _]; discriminate.
  - rewrite (signInAsync_real props state input Hdev).
    unfold outcomeOf, worldOf.
    destruct (doSignIn props) as [f|]; simpl.
    + destruct (f state input) as [res|reason]; run_await env;
        (split; [split; [reflexivity|split; [reflexivity|]]|
                 split; [discriminate|intros [_ H]; discriminate]]);
        try (split; reflexivity);
        (split; [|reflexivity]);
        unfold processResult_update; simpl;
        destruct (res_renew res) as [rn|], (res_user res) as [u|]; simpl;
        try destruct (truthy_string rn); try destruct (truthy u);
        reflexivity.
    + split; [reflexivity|]. split; [intros _; split; reflexivity|reflexivity].
Qed.

(** ** Committing a result *)

Example setAuth_scenario :
  let res := {| res_token := "xyz"; res_tokenExpiration := None;
                res_renew := None; res_renewExpiration := None;
                res_user := Some (JObj 1) |} in
  let s := {| initialized := false; auth := None;
              renew := Some {| token := "r"; expiresAt := Some 99 |};
              user := None |} in
  let w := {| store := s; isFirst := true; clock := 10; log := [] |} in
  store (worldOf (exec (setAuth res) [] w))
  = {| initialized := true;
       auth := Some {| token := "xyz"; expiresAt := None |};
       renew := Some {| token := "r"; expiresAt := Some 99 |};
       user := Some (JObj 1) |}.
Proof. reflexivity. Qed.

Example signIn_scenario_900 :
  let res := {| res_token := "abc"; res_tokenExpiration := Some (ExpNumber 900);
                res_renew := None; res_renewExpiration := None;
                res_user := None |} in
  let props := {| devToken := None; devSignedIn := false; devUser := None;
                  doSignIn := Some (fun _ _ => Fulfilled res);
                  doRenew := None; doSignOut := None;
                  onTokenChange := true; renewOnMount := false |} in
  let s := {| initialized := true; auth := None; renew := None;
              user := None |} in
  let w := {| store := s; isFirst := false; clock := 0; log := [] |} in
  store (worldOf (exec (signInAsync props s None) [] w))
  = {| initialized := true;
       auth := Some {| token := "abc"; expiresAt := Some 900000 |};
       renew := None; user := None |}.
Proof. reflexivity. Qed.

(** C4, as stated, fails: [setAuth] with a result whose [user] is the
    number [0] keeps the previous user, where [result.user ?? previous]
    is [0]; and a result whose [renew] is the empty string keeps the
    previous renew bundle. *)
Lemma processResult_falsy_counterexample :
  let res := {| res_token := "xyz"; res_tokenExpiration := None;
                res_renew := Some EmptyString; res_renewExpiration := None;
                res_user := Some (JNum 0) |} in
  let s := {| initialized := true; auth := None;
              renew := Some {| token := "r"; expiresAt := None |};
              user := Some (JObj 1) |} in
  let w := {| store := s; isFirst := false; clock := 10; log := [] |} in
  let s' := store (worldOf (exec (setAuth res) [] w)) in
  user s' = Some (JObj 1)
  /\ user (spec_processResult res 10 s) = Some (JNum 0)
  /\ renew s' = Some {| token := "r"; expiresAt := None |}
  /\ renew (spec_processResult res 10 s)
     = Some {| token := EmptyString; expiresAt := None |}
  /\ s' <> spec_processResult res 10 s.
Proof.
  simpl. repeat split. discriminate.
Qed.

(** C4, amended: the state committed by [setAuth] and by a successful
    [signInAsync] or [renewTokenAsync] has
    [auth = {token: result.token, expiresAt: coerceExpiration(result.tokenExpiration)}];
    [renew] built from [result.renew] and
    [coerceExpiration(result.renewExpiration)] when [result.renew] is a
    non-empty string and otherwise the renew bundle of the latest state;
    [user = result.user] when [result.user] is truthy and otherwise the
    user of the latest state; and [initialized = true].  The latest state
    is the one in the store when the commit happens, after whatever
    happened while the callback was awaited, not the state the function
    was created with; [setAuth] invokes no callback; a rejected operation
    commits nothing. *)
Theorem processResult_commits
    (props : AuthProviderProps) (state : AuthState) (input : option jsval)
    (env : list tick) (w : world) :
  let merged (res : AuthActionResult) (now : Z) (latest : AuthState) :=
    {| initialized := true;
       auth := Some {| token := res_token res;
                       expiresAt :=
                         coerceExpiration now (res_tokenExpiration res) |};
       renew :=
         if truthy_opt truthy_string (res_renew res)
         then option_map
                (fun r => {| token := r;
                             expiresAt :=
                               coerceExpiration now (res_renewExpiration res) |})
                (res_renew res)
         else renew latest;
       user := if truthy_opt truthy (res_user res)
               then res_user res
               else user latest |} in
  let awaited := fst (suspend env w) in
  let rIn := exec (signInAsync props state input) env w in
  let rRenew := exec (renewTokenAsync props state input) env w in
  (forall res : AuthActionResult,
      exec (setAuth res) env w
      = (Resolved tt,
         {| store := merged res (clock w) (store w);
            isFirst := isFirst w; clock := clock w;
            log := Committed (merged res (clock w) (store w)) :: log w |},
         env))
  /\ match outcomeOf rIn with
     | Resolved res =>
         let latest := match devTokenInUse props with
                       | Some _ => w
                       | None => awaited
                       end in
         store (worldOf rIn) = merged res (clock latest) (store latest)
         /\ commits (log (worldOf rIn))
            = (commits (log w) ++ [store (worldOf rIn)])%list
     | Rejected _ => commits (log (worldOf rIn)) = commits (log w)
     end
  /\ match outcomeOf rRenew with
     | Resolved res =>
         store (worldOf rRenew) = merged res (clock awaited) (store awaited)
         /\ commits (log (worldOf rRenew))
            = (commits (log w) ++ [store (worldOf rRenew)])%list
     | Rejected _ => commits (log (worldOf rRenew)) = commits (log w)
     end.
Proof.
  assert (Hm : forall res now latest,
             processResult_update res now latest
             = {| initialized := true;
                  auth := Some {| token := res_token res;
                                  expiresAt :=
                                    coerceExpiration now
                                      (res_tokenExpiration res) |};
                  renew :=
                    if truthy_opt truthy_string (res_renew res)
                    then option_map
                           (fun r =>
                              {| token := r;
                                 expiresAt :=
                                   coerceExpiration now
                                     (res_renewExpiration res) |})
                           (res_renew res)
                    else renew latest;
                  user := if truthy_opt truthy (res_user res)
                          then res_user res
                          else user latest |}).
  { intros res now latest. unfold processResult_update.
    destruct (res_renew res) as [r|], (res_user res) as [u|]; simpl;
      try destruct (truthy_string r); try destruct (truthy u); reflexivity. }
  cbv zeta. split; [|split].
  - intros res. unfold setAuth, processResult, setState. simpl.
    unfold commit, apply_setter. simpl. rewrite Hm. reflexivity.
  - destruct (devTokenInUse props) as [t|] eqn:Hdev.
    + rewrite (signInAsync_dev props t state input Hdev).
      unfold outcomeOf, worldOf. simpl. rewrite Hm. split; reflexivity.
    + rewrite (signInAsync_real props state input Hdev).
      unfold outcomeOf, worldOf.
      destruct (doSignIn props) as [f|]; simpl; [|reflexivity].
      destruct (f state input) as [res|reason]; run_await env;
        try rewrite Hm; try split; reflexivity.
  - unfold renewTokenAsync, outcomeOf, worldOf.
    destruct (doRenew props) as [f|]; simpl; [|reflexivity].
    destruct (f state input) as [res|reason]; run_await env;
      try rewrite Hm; try split; reflexivity.
Qed.

(** ** The reconciliation pass *)

Example reconcile_first_pass_unauthenticated :
  let props := {| devToken := None; devSignedIn := false; devUser := None;
                  doSignIn := None; doRenew := None; doSignOut := None;
                  onTokenChange := false; renewOnMount := false |} in
  let s := {| initialized := false; auth := None; renew := None;
              user := None |} in
  let w := {| store := s; isFirst := true; clock := 10; log := [] |} in
  exec (reconcile props s) [] w
  = (Resolved tt,
     {| store := {| initialized := true; auth := None; renew := None;
                    user := None |};
        isFirst := false; clock := 10;
        log := [Committed {| initialized := true; auth := None;
                             renew := None; user := None |};
                CalledRenewToken] |},
     []).
Proof. reflexivity. Qed.


Ltac pass_side :=
  try reflexivity; try lia; try (symmetry; apply app_nil_r).

(** A pass run on its own from its call to its end, with no renewal
    already in flight, in terms of the value of [isFirst.current]: what
    it calls, invokes and commits. *)
Theorem reconcile_pass
    (props : AuthProviderProps) (state : AuthState)
    (env : list tick) (w : world) :
  let authInv := invalid (clock w) (auth state) in
  let renewInv := invalid (clock w) (renew state) in
  let attempt :=
    (isFirst w && renewOnMount props) || absent (auth state) || authInv in
  let renewal :=
    if attempt
    then option_map (fun f => f state None) (doRenew props)
    else None in
  let awaits :=
    if attempt
    then match doRenew props with Some _ => 2%nat | None => 1%nat end
    else 0%nat in
  let first :=
    isFirst w && forallb (fun t => negb (ends_pass t)) (firstn awaits env) in
  let r := exec (reconcile props state) env w in
  outcomeOf r = Resolved tt
  /\ renewAttempts (log (worldOf r))
     = (renewAttempts (log w) + if attempt then 1 else 0)%nat
  /\ invocations DoRenew (log (worldOf r))
     = (invocations DoRenew (log w)
        ++ match renewal with
           | Some _ => [(state, None)]
           | None => []
           end)%list
  /\ match renewal with
     | Some (Fulfilled res) =>
         exists now latest,
           commits (log (worldOf r))
           = (commits (log w) ++ [processResult_update res now latest])%list
     | _ =>
         isFirst (worldOf r) = false
         /\ if first || authInv || renewInv
            then
              commits (log (worldOf r))
              = (commits (log w)
                 ++ [{| initialized := true;
                        auth := if authInv then None else auth state;
                        renew := if renewInv then None else renew state;
                        user := user state |}])%list
              /\ store (worldOf r)
                 = {| initialized := true;
                      auth := if authInv then None else auth state;
                      renew := if renewInv then None else renew state;
                      user := user state |}
            else commits (log (worldOf r)) = commits (log w)
     end.
Proof.
  cbv zeta. unfold reconcile, renewTokenAsync, outcomeOf, worldOf. simpl.
  destruct ((isFirst w && renewOnMount props) || absent (auth state)
            || invalid (clock w) (auth state)) eqn:Hattempt.
  - destruct (doRenew props) as [f|]; simpl.
    + destruct (f state None) as [res|reason]; simpl.
      * destruct env as [|[dt1 d1 e1] [|[dt2 d2 e2] env]]; simpl;
          (split; [reflexivity|]); (split; [lia|]);
          (split; [reflexivity|]); eexists; eexists; reflexivity.
      * destruct env as [|[dt1 d1 e1] env];
          [|destruct e1; destruct env as [|[dt2 d2 e2] env];
            [|destruct e2| |destruct e2]];
          simpl; unfold reconciled;
          destruct (isFirst w),
            (invalid (clock w) (auth state)),
            (invalid (clock w) (renew state));
          simpl in *; repeat split; pass_side.
    + destruct env as [|[dt1 d1 e1] env]; [|destruct e1];
        simpl; unfold reconciled;
        destruct (isFirst w),
          (invalid (clock w) (auth state)),
          (invalid (clock w) (renew state));
        simpl in *; repeat split; pass_side.
  - simpl. unfold reconciled.
    destruct (isFirst w),
      (invalid (clock w) (auth state)),
      (invalid (clock w) (renew state));
      simpl in *; repeat split; pass_side.
Qed.

(** ** The token-change notification *)

Section NotificationFacts.

Variable props : AuthProviderProps.

Lemma token_eqb_refl (a : option Token) : token_eqb a a = true.
Proof. destruct a as [t|]; simpl; [apply String.eqb_refl|reflexivity]. Qed.

Lemma notifyFrom_nth (pre : list AuthState) :
  forall (n : notifier) (s : AuthState) (post : list AuthState),
    nth (length pre) (notifyFrom props n (pre ++ s :: post)) []
    = snd (renderNotify props (notifierAfter props n pre) s).
Proof.
  induction pre as [|a pre IH]; intros n s post.
  - reflexivity.
  - change (nth (length pre)
              (notifyFrom props (fst (renderNotify props n a))
                 (pre ++ s :: post)) []
            = snd (renderNotify props
                     (notifierAfter props (fst (renderNotify props n a)) pre)
                     s)).
    apply IH.
Qed.

Lemma notifierAfter_app (pre : list AuthState) (p : AuthState) n :
  notifierAfter props n (pre ++ [p])
  = fst (renderNotify props (notifierAfter props n pre) p).
Proof. unfold notifierAfter. rewrite fold_left_app. reflexivity. Qed.

Lemma notifierAfter_lastDeps (pre : list AuthState) (p : AuthState) n :
  lastDeps (notifierAfter props n (pre ++ [p])) = Some (useAuthToken p).
Proof. rewrite notifierAfter_app. reflexivity. Qed.

(** Once a render has seen a non-empty token, [mounted.current] is set. *)
Lemma notifierAfter_mounted (pre : list AuthState) :
  forall n,
    onTokenChange props = true ->
    mounted (notifierAfter props n pre) = mounted n || existsb hasToken pre.
Proof.
  induction pre as [|a pre IH]; intros n Hcb; simpl.
  - symmetry. apply orb_false_r.
  - unfold notifierAfter in *. simpl. rewrite IH by assumption. simpl.
    unfold hasToken. rewrite Hcb.
    destruct (useAuthToken a) as [t|]; simpl.
    + destruct (truthy_string t), (mounted n); reflexivity.
    + rewrite orb_false_r. reflexivity.
Qed.

End NotificationFacts.

(** C5, as stated, fails.  A provider that mounts with a token calls
    [onTokenChange] twice with that token, during the render and again
    from the effect that runs after the first render; and a sign-in after
    a mount without token yields three calls (one with [undefined] after
    the mount, two with the new token), where the rule of the
    specification gives one call in the first case and one in the
    second. *)
Lemma onTokenChange_twice_counterexample :
  let props := {| devToken := None; devSignedIn := false; devUser := None;
                  doSignIn := None; doRenew := None; doSignOut := None;
                  onTokenChange := true; renewOnMount := false |} in
  let s0 := {| initialized := true; auth := None; renew := None;
               user := None |} in
  let s1 := {| initialized := true;
               auth := Some {| token := "abc"; expiresAt := None |};
               renew := None; user := None |} in
  notifyTrace props [s1]
  = [[DuringRender s1 "abc"; AfterRender s1 (Some "abc")]]
  /\ spec_notifyTrace [s1] = [[DuringRender s1 "abc"]]
  /\ notifyTrace props [s0; s1]
     = [[AfterRender s0 None];
        [DuringRender s1 "abc"; AfterRender s1 (Some "abc")]]
  /\ spec_notifyTrace [s0; s1] = [[]; [AfterRender s1 (Some "abc")]].
Proof. repeat split. Qed.

(** C5, amended: with [onTokenChange] configured, the calls made at a
    render are: one during the render, if the state holds a non-empty
    token and no earlier render did; then one from the effect, if the
    render is the first or the token differs from the token of the render
    before.  So a mount with a token, and the first sign-in after a mount
    without one, give two calls with the same token, and every mount gives
    the call of the effect; a render whose token equals that of the render
    before (only other fields changed) gives no call. *)
Theorem onTokenChange_calls
    (props : AuthProviderProps)
    (pre : list AuthState) (s : AuthState) (post : list AuthState) :
  onTokenChange props = true ->
  nth (length pre) (notifyTrace props (pre ++ s :: post)) []
  = (match useAuthToken s with
     | Some t =>
         if truthy_string t && negb (existsb hasToken pre)
         then [DuringRender s t]
         else []
     | None => []
     end
     ++ match rev pre with
        | [] => [AfterRender s (useAuthToken s)]
        | p :: _ =>
            if token_eqb (useAuthToken p) (useAuthToken s)
            then []
            else [AfterRender s (useAuthToken s)]
        end)%list
  /\ match rev pre with
     | [] => True
     | p :: _ =>
         useAuthToken p = useAuthToken s ->
         nth (length pre) (notifyTrace props (pre ++ s :: post)) [] = []
     end.
Proof.
  intros Hcb. unfold notifyTrace. rewrite notifyFrom_nth.
  assert (Hm := notifierAfter_mounted props pre unmounted Hcb).
  simpl in Hm.
  destruct (rev pre) as [|p rpre] eqn:Hrev.
  - assert (pre = []) as ->.
    { rewrite <- (rev_involutive pre), Hrev. reflexivity. }
    simpl. rewrite Hcb. split; [|exact I].
    destruct (useAuthToken s) as [t|]; simpl; [|reflexivity].
    rewrite andb_true_r. destruct (truthy_string t); reflexivity.
  - assert (pre = rev rpre ++ [p]) as Hpre.
    { rewrite <- (rev_involutive pre), Hrev. reflexivity. }
    assert (Hd : lastDeps (notifierAfter props unmounted pre)
                 = Some (useAuthToken p)).
    { rewrite Hpre. apply notifierAfter_lastDeps. }
    assert (Hex : hasToken p = true -> existsb hasToken pre = true).
    { intros Hp. rewrite Hpre, existsb_app. simpl. rewrite Hp.
      rewrite orb_true_r. reflexivity. }
    unfold renderNotify. rewrite Hd, Hm, Hcb. simpl.
    split.
    + destruct (useAuthToken s) as [t|]; simpl.
      * rewrite andb_true_r.
        destruct (truthy_string t && negb (existsb hasToken pre));
          destruct (token_eqb (useAuthToken p) (Some t)); reflexivity.
      * destruct (token_eqb (useAuthToken p) None); reflexivity.
    + intros Heq. rewrite <- Heq, token_eqb_refl. simpl.
      destruct (useAuthToken p) as [t|] eqn:Hp; simpl; [|reflexivity].
      destruct (truthy_string t) eqn:Ht; simpl; [|reflexivity].
      rewrite Hex; [reflexivity|]. unfold hasToken. rewrite Hp. exact Ht.
Qed.

(** A mount with the token ["abc"]. *)
Lemma onTokenChange_calls_witness :
  let props := {| devToken := None; devSignedIn := false; devUser := None;
                  doSignIn := None; doRenew := None; doSignOut := None;
                  onTokenChange := true; renewOnMount := false |} in
  let s1 := {| initialized := true;
               auth := Some {| token := "abc"; expiresAt := None |};
               renew := None; user := None |} in
  nth 0 (notifyTrace props [s1]) []
  = [DuringRender s1 "abc"; AfterRender s1 (Some "abc")].
Proof.
  simpl.
  exact (proj1
           (onTokenChange_calls
              {| devToken := None; devSignedIn := false; devUser := None;
                 doSignIn := None; doRenew := None; doSignOut := None;
                 onTokenChange := true; renewOnMount := false |}
              []
              {| initialized := true;
                 auth := Some {| token := "abc"; expiresAt := None |};
                 renew := None; user := None |}
              [] eq_refl)).
Defined.

(** ** Operations in flight *)

Section Flights.

Variable props : AuthProviderProps.

Lemma deliver_callers {R : Type} (p : R -> option AuthActionResult)
    (o : outcome R) (ids : list nat) :
  forall m : machine,
    deliver p o (map Caller ids) m
    = Some (with_world m (observedBy p o ids m)).
Proof.
  induction ids as [|id ids IH]; intros m.
  - destruct m; reflexivity.
  - simpl. rewrite IH. reflexivity.
Qed.

Lemma observedBy_facts {R : Type} (p : R -> option AuthActionResult)
    (o : outcome R) (ids : list nat) :
  forall w : world,
    store (observedBy p o ids w) = store w
    /\ isFirst (observedBy p o ids w) = isFirst w
    /\ (forall who, invocations who (log (observedBy p o ids w))
                    = invocations who (log w))
    /\ commits (log (observedBy p o ids w)) = commits (log w)
    /\ observations (log (observedBy p o ids w))
       = observations (log w) ++ map (fun id => (id, payload p o)) ids.
Proof.
  induction ids as [|id ids IH]; intros w; simpl.
  - repeat split. symmetry. apply app_nil_r.
  - destruct (IH (record (Observed id (payload p o)) w))
      as (Hs & Hf & Hi & Hc & Ho).
    unfold observedBy in *. rewrite Hs, Hf, Hc, Ho. simpl.
    repeat split; [apply Hi|]. rewrite <- app_assoc. reflexivity.
Qed.

(** Calls of an operation that is in flight only add waiters. *)
Lemma calls_join_signIn (calls : list (nat * option jsval)) :
  forall (rest : list label) (m : machine) (fl : flight AuthActionResult),
    signInFlight m = Some fl ->
    run props (map (fun c => CallSignIn (fst c) (snd c)) calls ++ rest) m
    = run props rest
        (with_signIn m m
           (Some {| runs := runs fl;
                    waiters := waiters fl
                               ++ map (fun c => Caller (fst c)) calls |})).
Proof.
  induction calls as [|[id input] calls IH]; intros rest m fl Hfl.
  - destruct m as [w rd si rn so], fl as [r ws]. simpl in *. subst si.
    rewrite app_nil_r. reflexivity.
  - simpl. rewrite Hfl. simpl.
    erewrite IH by reflexivity. simpl.
    rewrite <- app_assoc. reflexivity.
Qed.

Lemma calls_join_renew (calls : list (nat * option jsval)) :
  forall (rest : list label) (m : machine) (fl : flight AuthActionResult),
    renewFlight m = Some fl ->
    run props (map (fun c => CallRenewToken (fst c) (snd c)) calls ++ rest) m
    = run props rest
        (with_renew m m
           (Some {| runs := runs fl;
                    waiters := waiters fl
                               ++ map (fun c => Caller (fst c)) calls |})).
Proof.
  induction calls as [|[id input] calls IH]; intros rest m fl Hfl.
  - destruct m as [w rd si rn so], fl as [r ws]. simpl in *. subst rn.
    rewrite app_nil_r. reflexivity.
  - simpl. rewrite Hfl. simpl.
    erewrite IH by reflexivity. simpl.
    rewrite <- app_assoc. reflexivity.
Qed.

Lemma calls_join_signOut (calls : list (nat * option jsval)) :
  forall (rest : list label) (m : machine) (fl : flight unit),
    signOutFlight m = Some fl ->
    run props (map (fun c => CallSignOut (fst c) (snd c)) calls ++ rest) m
    = run props rest
        (with_signOut m m
           (Some {| runs := runs fl;
                    waiters := waiters fl
                               ++ map (fun c => Caller (fst c)) calls |})).
Proof.
  induction calls as [|[id input] calls IH]; intros rest m fl Hfl.
  - destruct m as [w rd si rn so], fl as [r ws]. simpl in *. subst so.
    rewrite app_nil_r. reflexivity.
  - simpl. rewrite Hfl. simpl.
    erewrite IH by reflexivity. simpl.
    rewrite <- app_assoc. reflexivity.
Qed.

Lemma waiters_callers {R : Type} (id0 : nat)
    (calls : list (nat * option jsval)) :
  [@Caller R id0] ++ map (fun c => Caller (fst c)) calls
  = map Caller (id0 :: map fst calls).
Proof. simpl. rewrite map_map. reflexivity. Qed.

Ltac settle_callers :=
  let Hi := fresh "Hi" in
  let Ho := fresh "Ho" in
  rewrite deliver_callers; (eexists; split; [reflexivity|]);
  match goal with
  | |- context [observedBy ?p ?o ?ids ?w] =>
      destruct (observedBy_facts p o ids w) as (_ & _ & Hi & _ & Ho)
  end;
  cbn [with_world mworld log signInFlight renewFlight signOutFlight
       with_signIn with_renew with_signOut] in *;
  rewrite Hi, Ho; repeat split.

Lemma signIn_flight (m : machine) (f : callback AuthActionResult)
    (id0 : nat) (input0 : option jsval) (calls : list (nat * option jsval)) :
  devTokenInUse props = None -> doSignIn props = Some f ->
  signInFlight m = None ->
  exists m',
    run props (CallSignIn id0 input0
               :: map (fun c => CallSignIn (fst c) (snd c)) calls
               ++ [Settle OpSignIn]) m = Some m'
    /\ invocations DoSignIn (log m')
       = invocations DoSignIn (log m) ++ [(rendered m, input0)]
    /\ observations (log m')
       = observations (log m)
         ++ map (fun id => (id, payload Some (settle (f (rendered m) input0))))
              (id0 :: map fst calls)
    /\ signInFlight m' = None.
Proof.
  intros Hdev Hf Hslot.
  cbn [run step]. rewrite Hslot. unfold share.
  rewrite (signInAsync_real props (rendered m) input0 Hdev), Hf.
  cbn [advance bind await pendingResult].
  erewrite calls_join_signIn by reflexivity.
  cbn [run step with_signIn signInFlight runs waiters finish].
  rewrite waiters_callers.
  destruct (f (rendered m) input0) as [res|reason];
    cbn [settle bind advance processResult setState];
    settle_callers.
Qed.

Lemma renew_flight (m : machine) (g : callback AuthActionResult)
    (id0 : nat) (input0 : option jsval) (calls : list (nat * option jsval)) :
  doRenew props = Some g ->
  renewFlight m = None ->
  exists m',
    run props (CallRenewToken id0 input0
               :: map (fun c => CallRenewToken (fst c) (snd c)) calls
               ++ [Settle OpRenew]) m = Some m'
    /\ invocations DoRenew (log m')
       = invocations DoRenew (log m) ++ [(rendered m, input0)]
    /\ observations (log m')
       = observations (log m)
         ++ map (fun id => (id, payload Some (settle (g (rendered m) input0))))
              (id0 :: map fst calls)
    /\ renewFlight m' = None.
Proof.
  intros Hg Hslot.
  cbn [run step]. rewrite Hslot. unfold share, renewTokenAsync.
  rewrite Hg.
  cbn [advance bind await pendingResult].
  erewrite calls_join_renew by reflexivity.
  cbn [run step with_renew renewFlight runs waiters finish].
  rewrite waiters_callers.
  destruct (g (rendered m) input0) as [res|reason];
    cbn [settle bind advance processResult setState];
    settle_callers.
Qed.

Lemma signOut_flight (m : machine) (h : callback unit)
    (id0 : nat) (input0 : option jsval) (calls : list (nat * option jsval)) :
  doSignOut props = Some h ->
  signOutFlight m = None ->
  exists m',
    run props (CallSignOut id0 input0
               :: map (fun c => CallSignOut (fst c) (snd c)) calls
               ++ [Settle OpSignOut]) m = Some m'
    /\ invocations DoSignOut (log m')
       = invocations DoSignOut (log m) ++ [(rendered m, input0)]
    /\ observations (log m')
       = observations (log m)
         ++ map (fun id => (id, Resolved None)) (id0 :: map fst calls)
    /\ signOutFlight m' = None.
Proof.
  intros Hh Hslot.
  cbn [run step]. rewrite Hslot. unfold share, signOutAsync.
  rewrite Hh.
  cbn [advance pendingVoid].
  erewrite calls_join_signOut by reflexivity.
  cbn [run step with_signOut signOutFlight runs waiters finish].
  rewrite waiters_callers.
  cbn [advance processExit setState].
  settle_callers.
Qed.

End Flights.

Example signIn_overlapping_calls :
  let res := {| res_token := "abc"; res_tokenExpiration := None;
                res_renew := None; res_renewExpiration := None;
                res_user := None |} in
  let props := {| devToken := None; devSignedIn := false; devUser := None;
                  doSignIn := Some (fun _ _ => Fulfilled res);
                  doRenew := None; doSignOut := None;
                  onTokenChange := false; renewOnMount := false |} in
  let s := {| initialized := false; auth := None; renew := None;
              user := None |} in
  option_map (fun m : machine =>
                (invocations DoSignIn (log m), observations (log m)))
    (run props [CallSignIn 1 (Some (JStr "a")); CallSignIn 2 (Some (JStr "b"));
                Settle OpSignIn]
       (mount props None 0))
  = Some ([(s, Some (JStr "a"))],
          [(1%nat, Resolved (Some res)); (2%nat, Resolved (Some res))]).
Proof. reflexivity. Qed.

(** C2: while a call of an operation (sign-in, renewal, sign-out) is in
    flight, further calls of the same operation join it and invoke
    nothing: from a provider with no call in flight, any number of
    overlapping calls followed by the settling of the operation invoke the
    callback once, with the state and the input of the first call, and
    every caller receives the same outcome, the result the callback
    fulfilled with or the reason it rejected with (for sign-out, whose
    callback's outcome is dropped, every caller sees it resolve). *)
Theorem single_flight
    (props : AuthProviderProps) (m : machine)
    (f g : callback AuthActionResult) (h : callback unit)
    (id0 : nat) (input0 : option jsval) (calls : list (nat * option jsval)) :
  devTokenInUse props = None ->
  doSignIn props = Some f -> doRenew props = Some g ->
  doSignOut props = Some h ->
  signInFlight m = None -> renewFlight m = None -> signOutFlight m = None ->
  (exists m',
      run props (CallSignIn id0 input0
                 :: map (fun c => CallSignIn (fst c) (snd c)) calls
                 ++ [Settle OpSignIn]) m = Some m'
      /\ invocations DoSignIn (log m')
         = invocations DoSignIn (log m) ++ [(rendered m, input0)]
      /\ observations (log m')
         = observations (log m)
           ++ map (fun id =>
                     (id, payload Some (settle (f (rendered m) input0))))
                (id0 :: map fst calls)
      /\ signInFlight m' = None)
  /\ (exists m',
         run props (CallRenewToken id0 input0
                    :: map (fun c => CallRenewToken (fst c) (snd c)) calls
                    ++ [Settle OpRenew]) m = Some m'
         /\ invocations DoRenew (log m')
            = invocations DoRenew (log m) ++ [(rendered m, input0)]
         /\ observations (log m')
            = observations (log m)
              ++ map (fun id =>
                        (id, payload Some (settle (g (rendered m) input0))))
                   (id0 :: map fst calls)
         /\ renewFlight m' = None)
  /\ (exists m',
         run props (CallSignOut id0 input0
                    :: map (fun c => CallSignOut (fst c) (snd c)) calls
                    ++ [Settle OpSignOut]) m = Some m'
         /\ invocations DoSignOut (log m')
            = invocations DoSignOut (log m) ++ [(rendered m, input0)]
         /\ observations (log m')
            = observations (log m)
              ++ map (fun id => (id, Resolved None)) (id0 :: map fst calls)
         /\ signOutFlight m' = None).
Proof.
  intros Hdev Hf Hg Hh Hin Hrn Hout. split; [|split].
  - apply signIn_flight; assumption.
  - apply renew_flight; assumption.
  - apply signOut_flight with (h := h); assumption.
Qed.

(** Two overlapping sign-ins with different inputs on a freshly mounted
    provider whose callbacks all fulfil. *)
Lemma single_flight_witness :
  exists m',
    run sampleProps
      [CallSignIn 1 (Some (JStr "a")); CallSignIn 2 (Some (JStr "b"));
       Settle OpSignIn] (mount sampleProps None 0) = Some m'
    /\ invocations DoSignIn (log m')
       = [(rendered (mount sampleProps None 0), Some (JStr "a"))]
    /\ observations (log m')
       = [(1%nat, Resolved (Some sampleResult));
          (2%nat, Resolved (Some sampleResult))]
    /\ signInFlight m' = None.
Proof.
  exact (proj1
           (single_flight sampleProps (mount sampleProps None 0)
              (fun _ _ => Fulfilled sampleResult)
              (fun _ _ => Fulfilled sampleResult)
              (fun _ _ => Fulfilled tt)
              1%nat (Some (JStr "a")) [(2%nat, Some (JStr "b"))]
              eq_refl eq_refl eq_refl eq_refl eq_refl eq_refl eq_refl)).
Defined.

(** ** The [initialized] flag *)

(** Which commits set [initialized] and which copy it. *)
Lemma committed_initialized :
  (forall res now latest,
      initialized (processResult_update res now latest) = true)
  /\ initialized signedOut = true
  /\ (forall state authInv renewInv,
         initialized (reconciled state authInv renewInv) = true)
  /\ (forall state, initialized (withoutAuth state) = initialized state)
  /\ (forall state, initialized (withoutRenew state) = initialized state).
Proof. repeat split. Qed.

(** The task of the auth timer, after a failed renewal, writes the state
    it was created with, whatever the store holds by then. *)
Lemma taskSchedulePromise_writes_snapshot
    (props : AuthProviderProps) (state : AuthState)
    (env : list tick) (w : world) :
  (forall e, outcomeOf (exec (renewTokenAsync props state None) env
                          (record CalledRenewToken w)) = Rejected e ->
             store (worldOf (exec (taskSchedulePromise props state) env w))
             = withoutAuth state).
Proof.
  intros e. unfold taskSchedulePromise, outcomeOf, worldOf. simpl.
  destruct (exec (renewTokenAsync props state None) env
              (record CalledRenewToken w)) as [[o w1] env1]. simpl.
  intros ->. destruct env1 as [|t env1]; reflexivity.
Qed.

(** Why the stored state matters: a stored state that holds bundles but
    has [initialized: false] (one that the provider itself never writes)
    would let the task of the auth timer write that flag back.  Mounted at
    [2000] on such a state with a [doRenew] that rejects, the first pass
    and the auth timer await the same renewal; the pass commits
    [initialized: true], then the task of the timer commits
    [{ ...state, auth: undefined }] from the state it was created with. *)
Lemma initialized_reset_by_auth_timer :
  exists m m2 : machine,
    run rejectingProps [RunReconcile; FireAuthTimer; Settle OpRenew]
      (mount rejectingProps (Some expiredState) 2000) = Some m
    /\ commits (log m)
       = [ {| initialized := true; auth := None;
              renew := Some {| token := "r"; expiresAt := None |};
              user := None |};
           {| initialized := false; auth := None;
              renew := Some {| token := "r"; expiresAt := None |};
              user := None |} ]
    /\ invocations DoRenew (log m) = [(expiredState, None)]
    /\ isFirst m = false
    /\ initialized (store m) = false
    /\ run rejectingProps [Render; RunReconcile; Settle OpRenew] m = Some m2
    /\ commits (log m2) = commits (log m)
    /\ initialized (store m2) = false.
Proof.
  eexists. eexists.
  split; [vm_compute; reflexivity|].
  do 4 (split; [vm_compute; reflexivity|]).
  split; [vm_compute; reflexivity|].
  split; vm_compute; reflexivity.
Qed.

(** The early [return] of a pass whose renewal resolved skips
    [isFirst.current = false]: with [renewOnMount], every later pass
    renews again, although the auth bundle is present and valid. *)
Lemma renewOnMount_renews_on_later_passes :
  exists m : machine,
    run renewingProps
      [RunReconcile; Settle OpRenew; Render;
       RunReconcile; Settle OpRenew; Render;
       RunReconcile; Settle OpRenew]
      (mount renewingProps None 2000) = Some m
    /\ isFirst m = true
    /\ length (invocations DoRenew (log m)) = 3%nat
    /\ invalid (clock m) (auth (rendered m)) = false
    /\ absent (auth (rendered m)) = false.
Proof.
  eexists. split; [vm_compute; reflexivity|].
  repeat split; vm_compute; reflexivity.
Qed.

(** * Further properties *)

(** ** Bundles over time *)

(** X1: A bundle that is valid at some time was valid at every earlier time:
    once [isTokenBundleValid] has become [false] it stays [false]. *)
Theorem isTokenBundleValid_earlier (b : TokenBundle) (t t' : Z) :
  t <= t' ->
  isTokenBundleValid t' b = true ->
  isTokenBundleValid t b = true.
Proof.
  unfold isTokenBundleValid. intros Hle.
  destruct (truthy_string (token b)); simpl; [|discriminate].
  destruct (expiresAt b) as [e|]; simpl; [|reflexivity].
  destruct (truthy_number e); simpl; [|reflexivity].
  intros H. apply Z.leb_le in H. apply Z.leb_le. lia.
Qed.

Lemma isTokenBundleValid_earlier_witness :
  isTokenBundleValid 10 {| token := "abc"; expiresAt := Some 20 |} = true.
Proof.
  apply (isTokenBundleValid_earlier
           {| token := "abc"; expiresAt := Some 20 |} 10 20);
    [lia | reflexivity].
Defined.

(** X2: A token that comes with a relative expiration of [n] seconds, coerced
    at time [now], is valid exactly up to [now + 1000 n], that instant
    included; a negative [n] gives a bundle that is invalid at once. *)
Theorem relative_expiration_lifetime (tok : Token) (now n t : Z) :
  tok <> EmptyString ->
  now + n * 1000 <> 0 ->
  isTokenBundleValid t
    {| token := tok;
       expiresAt := coerceExpiration now (Some (ExpNumber n)) |}
  = (t <=? now + n * 1000)
  /\ isTokenBundleValid now
       {| token := tok;
          expiresAt := coerceExpiration now (Some (ExpNumber n)) |}
     = (0 <=? n).
Proof.
  intros Htok Hne. unfold isTokenBundleValid. simpl.
  apply truthy_string_spec in Htok. rewrite Htok.
  apply truthy_number_spec in Hne. rewrite Hne. simpl. split.
  - reflexivity.
  - destruct (Z.leb_spec now (now + n * 1000)), (Z.leb_spec 0 n);
      try reflexivity; lia.
Qed.

Lemma relative_expiration_lifetime_witness :
  isTokenBundleValid 900000
    {| token := "abc"; expiresAt := coerceExpiration 0 (Some (ExpNumber 900)) |}
  = true.
Proof.
  rewrite (proj1 (relative_expiration_lifetime "abc" 0 900 900000
                    ltac:(discriminate) ltac:(lia))).
  reflexivity.
Defined.

(** X3: Whether the auth bundle that [processResult] commits is valid at the
    time of the commit: the token must not be empty, and the expiration
    must be absent, or a number of seconds that is not negative, or a
    date that is not in the past (or lands on the instant [0], which counts
    as no expiration). *)
Theorem processResult_auth_validity
    (res : AuthActionResult) (now : Z) (latest : AuthState) :
  invalid now (auth (processResult_update res now latest))
  = negb (truthy_string (res_token res)
          && match res_tokenExpiration res with
             | None => true
             | Some (ExpNumber n) => (0 <=? n) || (now + n * 1000 =? 0)
             | Some (ExpDate d) => (now <=? d) || (d =? 0)
             end).
Proof.
  unfold invalid, processResult_update, isTokenBundleValid. simpl.
  f_equal. f_equal.
  destruct (res_tokenExpiration res) as [[n|d]|]; simpl; [| |reflexivity].
  - unfold truthy_number.
    destruct (Z.eqb_spec (now + n * 1000) 0) as [E|E]; simpl.
    + symmetry. apply orb_true_r.
    + rewrite orb_false_r.
      destruct (Z.leb_spec now (now + n * 1000)), (Z.leb_spec 0 n);
        try reflexivity; lia.
  - unfold truthy_number.
    destruct (Z.eqb_spec d 0) as [E|E]; simpl.
    + symmetry. apply orb_true_r.
    + rewrite orb_false_r. reflexivity.
Qed.

(** ** Hooks and guard on the states the provider commits *)

(** X4: After [signOutAsync], whatever the configuration, every hook reports
    an unauthenticated, initialized application: no token, no user, no
    renewal, and [AuthGuard] renders its children only if [showUnAuth] is
    set. *)
Theorem hooks_after_signOut
    (props : AuthProviderProps) (state : AuthState) (input : option jsval)
    (env : list tick) (w : world) :
  let s := store (worldOf (exec (signOutAsync props state input) env w)) in
  useIsAuthenticated s = false
  /\ isRenewEnabled (useAuth s) = false
  /\ ret_initialized (useAuth s) = true
  /\ useAuthUser s = None
  /\ useAuthToken s = None
  /\ forall showAuth showUnAuth,
       AuthGuard showAuth showUnAuth s
       = match showUnAuth with Some b => b | None => false end.
Proof.
  unfold signOutAsync, worldOf.
  destruct (doSignOut props) as [f|]; simpl;
    [destruct env as [|t env]; simpl|];
    repeat split; intros sa su; destruct su as [[|]|]; reflexivity.
Qed.

(** X5: After [setAuth(res)] every hook reports an authenticated application
    carrying the token of [res], even when that token is the empty
    string or the expiration lies in the past. *)
Theorem hooks_after_setAuth
    (res : AuthActionResult) (env : list tick) (w : world) :
  let s := store (worldOf (exec (setAuth res) env w)) in
  useIsAuthenticated s = true
  /\ ret_initialized (useAuth s) = true
  /\ useAuthToken s = Some (res_token res)
  /\ forall showAuth showUnAuth,
       AuthGuard showAuth showUnAuth s
       = match showAuth with Some b => b | None => true end.
Proof.
  simpl. repeat split. intros sa su. destruct sa as [[|]|]; reflexivity.
Qed.

(** X6: A result with an empty token is taken back by the reconciliation pass
    that follows it: when no renewal is configured, the pass that runs on
    the state committed by [setAuth] commits that state without its auth
    bundle, and the hooks report an unauthenticated application again. *)
Theorem empty_token_is_dropped
    (props : AuthProviderProps) (res : AuthActionResult)
    (env env' : list tick) (w w' : world) :
  doRenew props = None ->
  res_token res = EmptyString ->
  let s := store (worldOf (exec (setAuth res) env w)) in
  let s' := store (worldOf (exec (reconcile props s) env' w')) in
  useIsAuthenticated s = true
  /\ useIsAuthenticated s' = false
  /\ renew s' = (if invalid (clock w') (renew s) then None else renew s)
  /\ user s' = user s.
Proof.
  intros Hno Htok. simpl.
  unfold reconcile, renewTokenAsync, worldOf. rewrite Hno. simpl.
  unfold isTokenBundleValid at 1 2. simpl. rewrite Htok. simpl.
  rewrite orb_true_r. simpl.
  destruct env' as [|[dt d e] env']; simpl; rewrite !orb_true_r; simpl;
    repeat split.
Qed.

Lemma empty_token_is_dropped_witness :
  let res := {| res_token := EmptyString; res_tokenExpiration := None;
                res_renew := None; res_renewExpiration := None;
                res_user := None |} in
  let props := {| devToken := None; devSignedIn := false; devUser := None;
                  doSignIn := None; doRenew := None; doSignOut := None;
                  onTokenChange := false; renewOnMount := false |} in
  let w := {| store := signedOut; isFirst := false; clock := 5; log := [] |} in
  let s := store (worldOf (exec (setAuth res) [] w)) in
  useIsAuthenticated s = true
  /\ useIsAuthenticated
       (store (worldOf (exec (reconcile props s) []
                          {| store := s; isFirst := false; clock := 5;
                             log := [] |}))) = false.
Proof.
  cbv zeta.
  pose proof
    (empty_token_is_dropped
       {| devToken := None; devSignedIn := false; devUser := None;
          doSignIn := None; doRenew := None; doSignOut := None;
          onTokenChange := false; renewOnMount := false |}
       {| res_token := EmptyString; res_tokenExpiration := None;
          res_renew := None; res_renewExpiration := None;
          res_user := None |}
       [] []
       {| store := signedOut; isFirst := false; clock := 5; log := [] |}
       {| store :=
            store (worldOf
                     (exec (setAuth
                              {| res_token := EmptyString;
                                 res_tokenExpiration := None;
                                 res_renew := None;
                                 res_renewExpiration := None;
                                 res_user := None |}) []
                        {| store := signedOut; isFirst := false; clock := 5;
                           log := [] |}));
          isFirst := false; clock := 5; log := [] |}
       eq_refl eq_refl) as H.
  cbv zeta in H. destruct H as (H1 & H2 & _). split; [exact H1|exact H2].
Defined.

(** X7: [AuthGuard] with both flags given and the guard with both flags
    negated never render together and never both hide: exactly one of
    them renders its children.  With no flag given the guard renders
    exactly when the application is authenticated. *)
Theorem AuthGuard_partition (showAuth showUnAuth : bool) (ctx : AuthState) :
  AuthGuard (Some showAuth) (Some showUnAuth) ctx
  = negb (AuthGuard (Some (negb showAuth)) (Some (negb showUnAuth)) ctx)
  /\ AuthGuard None None ctx = useIsAuthenticated ctx.
Proof.
  unfold AuthGuard. destruct (useIsAuthenticated ctx), showAuth, showUnAuth;
    split; reflexivity.
Qed.

(** ** The storage key *)

Lemma length_dev_prefix (p : string) :
  String.length ("$dev_" ++ p)%string = (5 + String.length p)%nat.
Proof. reflexivity. Qed.

(** X8: With the same [authPrefix], a provider that has a (non-empty)
    development token stores its state under another key than one that
    has none: the key of the first is the key of the second behind
    ["$dev_"].  An empty development token does not move the key. *)
Theorem storagePrefix_isolates_dev
    (t : string) (authPrefix : option string) :
  t <> EmptyString ->
  storagePrefix (Some t) authPrefix
  = ("$dev_" ++ storagePrefix None authPrefix)%string
  /\ storagePrefix (Some t) authPrefix <> storagePrefix None authPrefix
  /\ storagePrefix (Some EmptyString) authPrefix
     = storagePrefix None authPrefix.
Proof.
  intros Ht. apply truthy_string_spec in Ht.
  unfold storagePrefix. simpl truthy_opt. rewrite Ht.
  split; [reflexivity|]. split; [|reflexivity].
  intros Heq. apply (f_equal String.length) in Heq.
  rewrite length_dev_prefix in Heq. simpl in Heq. lia.
Qed.

Lemma storagePrefix_isolates_dev_witness :
  storagePrefix (Some "secret") None = "$dev_auth_"
  /\ storagePrefix None None = "auth_".
Proof.
  split; [|reflexivity].
  exact (proj1 (storagePrefix_isolates_dev "secret" None
                  ltac:(discriminate))).
Defined.

(** ** What runs without a call from the application *)

Ltac await_cases env :=
  destruct env as [|[? ? ?] [|[? ? ?] env]]; simpl.

(** X9: The reconciliation pass and the tasks of the two timers never invoke
    [doSignIn] or [doSignOut]: an expiring token signs nobody out through
    the callback. *)
Theorem automatic_paths_spare_callbacks
    (props : AuthProviderProps) (state : AuthState)
    (env : list tick) (w : world) :
  let quiet (r : outcome unit * world * list tick) :=
    invocations DoSignIn (log (worldOf r)) = invocations DoSignIn (log w)
    /\ invocations DoSignOut (log (worldOf r))
       = invocations DoSignOut (log w) in
  quiet (exec (reconcile props state) env w)
  /\ quiet (exec (taskSchedulePromise props state) env w)
  /\ quiet (exec (expireRenew state) env w).
Proof.
  cbv zeta. unfold reconcile, taskSchedulePromise, expireRenew,
    renewTokenAsync, worldOf. simpl.
  split; [|split; [|split; reflexivity]].
  - destruct ((isFirst w && renewOnMount props) || absent (auth state)
              || invalid (clock w) (auth state)); simpl.
    + destruct (doRenew props) as [f|]; simpl.
      * destruct (f state None) as [res|reason]; await_cases env;
          repeat match goal with
                 | |- context [if ?c then _ else _] => destruct c; simpl
                 end; split; reflexivity.
      * destruct env as [|[? ? ?] env]; simpl;
          repeat match goal with
                 | |- context [if ?c then _ else _] => destruct c; simpl
                 end; split; reflexivity.
    + repeat match goal with
             | |- context [if ?c then _ else _] => destruct c; simpl
             end; split; reflexivity.
  - destruct (doRenew props) as [f|]; simpl.
    + destruct (f state None) as [res|reason]; await_cases env;
        split; reflexivity.
    + destruct env as [|[? ? ?] env]; simpl; split; reflexivity.
Qed.

(** X10: The task of the auth timer never rejects.  When the renewal is not
    available (no [doRenew], or it rejects) the task commits the state it
    was created with, without the auth bundle: the renew bundle, the user
    and [initialized] are those of that state.  When the task starts the
    renewal and it fulfils, the only commit is that of the renewal: the
    result merged over the state the store holds when the callback has
    settled, whose renew bundle and user are kept unless the result brings
    a non-empty [renew] or a truthy [user]. *)
Theorem taskSchedulePromise_outcomes
    (props : AuthProviderProps) (state : AuthState)
    (env : list tick) (w : world) :
  let r := exec (taskSchedulePromise props state) env w in
  let awaited := fst (suspend env w) in
  outcomeOf r = Resolved tt
  /\ match match doRenew props with
           | Some f => f state None
           | None => Failed JNull
           end with
     | Failed _ =>
         store (worldOf r)
         = {| initialized := initialized state; auth := None;
              renew := renew state; user := user state |}
         /\ commits (log (worldOf r))
            = commits (log w) ++ [store (worldOf r)]
     | Fulfilled res =>
         commits (log (worldOf r))
         = commits (log w)
           ++ [{| initialized := true;
                  auth :=
                    Some {| token := res_token res;
                            expiresAt :=
                              coerceExpiration (clock awaited)
                                (res_tokenExpiration res) |};
                  renew :=
                    if truthy_opt truthy_string (res_renew res)
                    then option_map
                           (fun rn =>
                              {| token := rn;
                                 expiresAt :=
                                   coerceExpiration (clock awaited)
                                     (res_renewExpiration res) |})
                           (res_renew res)
                    else renew (store awaited);
                  user := if truthy_opt truthy (res_user res)
                          then res_user res
                          else user (store awaited) |}]
     end.
Proof.
  cbv zeta. unfold taskSchedulePromise, renewTokenAsync, outcomeOf, worldOf.
  destruct (doRenew props) as [f|]; simpl.
  - destruct (f state None) as [res|reason]; await_cases env;
      (split; [reflexivity|]);
      try (split; reflexivity);
      unfold processResult_update; simpl;
      destruct (res_renew res) as [rn|], (res_user res) as [u|]; simpl;
      try destruct (truthy_string rn); try destruct (truthy u);
      reflexivity.
  - destruct env as [|[? ? ?] env]; simpl; repeat split.
Qed.

(** X11: The task of the renew timer removes the renew bundle and nothing
    else: the auth bundle and the authenticated status are those of the
    state the task was created with; the application is not signed out. *)
Theorem expireRenew_keeps_auth
    (state : AuthState) (env : list tick) (w : world) :
  let r := exec (expireRenew state) env w in
  outcomeOf r = Resolved tt
  /\ auth (store (worldOf r)) = auth state
  /\ user (store (worldOf r)) = user state
  /\ useIsAuthenticated (store (worldOf r)) = useIsAuthenticated state
  /\ isRenewEnabled (useAuth (store (worldOf r))) = false
  /\ commits (log (worldOf r)) = commits (log w) ++ [store (worldOf r)]
  /\ store (worldOf (exec (expireRenew (store (worldOf r))) env (worldOf r)))
     = store (worldOf r).
Proof. repeat split. Qed.

(** ** Reconciliation passes *)

(** X12: The first pass always initializes: as long as no other pass ends
    while it waits, a pass that starts with [isFirst.current] set commits
    exactly one state (its own or that of the renewal), and that state
    has [initialized = true]. *)
Theorem first_pass_initializes
    (props : AuthProviderProps) (state : AuthState)
    (env : list tick) (w : world) :
  isFirst w = true ->
  forallb (fun t => negb (ends_pass t)) env = true ->
  exists s,
    commits (log (worldOf (exec (reconcile props state) env w)))
    = commits (log w) ++ [s]
    /\ initialized s = true.
Proof.
  intros Hfirst Henv.
  destruct w as [st fi ck lg]. simpl in Hfirst. subst fi.
  unfold reconcile, renewTokenAsync, worldOf. simpl.
  destruct (renewOnMount props || absent (auth state)
            || invalid ck (auth state)); simpl.
  - destruct (doRenew props) as [f|]; simpl.
    + destruct (f state None) as [res|reason].
      * await_cases env; eexists; split; reflexivity.
      * destruct env as [|[dt1 d1 e1] env]; simpl in *.
        -- eexists; split; reflexivity.
        -- destruct e1; [discriminate|].
           destruct env as [|[dt2 d2 e2] env]; simpl in *.
           ++ eexists; split; reflexivity.
           ++ destruct e2; [discriminate|]. simpl.
              eexists; split; reflexivity.
    + destruct env as [|[dt1 d1 e1] env]; simpl in *.
      * eexists; split; reflexivity.
      * destruct e1; [discriminate|]. simpl.
        eexists; split; reflexivity.
  - eexists; split; reflexivity.
Qed.

Lemma first_pass_initializes_witness :
  exists s,
    commits (log (worldOf
                    (exec (reconcile rejectingProps expiredState) []
                       (mount rejectingProps (Some expiredState) 2000))))
    = [s]
    /\ initialized s = true.
Proof.
  exact (first_pass_initializes rejectingProps expiredState []
           (mount rejectingProps (Some expiredState) 2000)
           eq_refl eq_refl).
Defined.

(** X13: A reload with a valid auth bundle keeps it: without [renewOnMount],
    a pass on a state whose auth bundle is valid awaits nothing, calls no
    renewal, and the first such pass commits the state with the same auth
    bundle and user, [initialized = true], and the renew bundle unless
    that one is invalid. *)
Theorem reload_keeps_valid_auth
    (props : AuthProviderProps) (state : AuthState) (b : TokenBundle)
    (env : list tick) (w : world) :
  renewOnMount props = false ->
  auth state = Some b ->
  isTokenBundleValid (clock w) b = true ->
  let r := exec (reconcile props state) env w in
  snd r = env
  /\ renewAttempts (log (worldOf r)) = renewAttempts (log w)
  /\ invocations DoRenew (log (worldOf r)) = invocations DoRenew (log w)
  /\ isFirst (worldOf r) = false
  /\ (isFirst w = true ->
      store (worldOf r)
      = {| initialized := true; auth := Some b;
           renew := if invalid (clock w) (renew state)
                    then None else renew state;
           user := user state |}).
Proof.
  intros Hmount Hauth Hvalid.
  unfold reconcile, worldOf. simpl.
  rewrite Hmount, Hauth. simpl. rewrite Hvalid. simpl.
  rewrite andb_false_r. simpl.
  destruct (isFirst w); simpl.
  - repeat split. intros _. unfold reconciled. rewrite Hauth. reflexivity.
  - destruct (invalid (clock w) (renew state)); simpl; repeat split;
      intros; discriminate.
Qed.

Lemma reload_keeps_valid_auth_witness :
  let s := {| initialized := false;
              auth := Some {| token := "abc"; expiresAt := Some 5000 |};
              renew := None; user := Some (JObj 1) |} in
  store (worldOf (exec (reconcile sampleProps s) []
                    (mount sampleProps (Some s) 2000)))
  = {| initialized := true;
       auth := Some {| token := "abc"; expiresAt := Some 5000 |};
       renew := None; user := Some (JObj 1) |}.
Proof.
  cbv zeta.
  exact (proj2 (proj2 (proj2 (proj2
           (reload_keeps_valid_auth sampleProps
              {| initialized := false;
                 auth := Some {| token := "abc"; expiresAt := Some 5000 |};
                 renew := None; user := Some (JObj 1) |}
              {| token := "abc"; expiresAt := Some 5000 |}
              []
              (mount sampleProps
                 (Some {| initialized := false;
                          auth := Some {| token := "abc";
                                          expiresAt := Some 5000 |};
                          renew := None; user := Some (JObj 1) |}) 2000)
              eq_refl eq_refl eq_refl)))) eq_refl).
Defined.

(** X14: A pass on a state without auth bundle always calls
    [renewTokenAsync(undefined)], also right after a sign-out and also
    when the state holds no renew bundle.  Run with no renewal in flight,
    that call invokes [doRenew(state, undefined)] once, whatever the
    callback then does; and if the callback fulfils, the pass ends with
    one commit, the result merged over the state the store holds by then:
    the application is authenticated again with the token of the
    result. *)
Theorem pass_without_auth_renews
    (props : AuthProviderProps) (state : AuthState)
    (f : callback AuthActionResult) (env : list tick) (w : world) :
  auth state = None ->
  doRenew props = Some f ->
  let r := exec (reconcile props state) env w in
  let awaited := fst (suspend env w) in
  (exists k,
      advance (reconcile props state) w
      = (OnRenewToken (renewTokenAsync props state None) k,
         record CalledRenewToken w))
  /\ invocations DoRenew (log (worldOf r))
     = invocations DoRenew (log w) ++ [(state, None)]
  /\ forall res,
       f state None = Fulfilled res ->
       exists s,
         commits (log (worldOf r)) = commits (log w) ++ [s]
         /\ s = {| initialized := true;
                   auth :=
                     Some {| token := res_token res;
                             expiresAt :=
                               coerceExpiration (clock awaited)
                                 (res_tokenExpiration res) |};
                   renew :=
                     if truthy_opt truthy_string (res_renew res)
                     then option_map
                            (fun rn =>
                               {| token := rn;
                                  expiresAt :=
                                    coerceExpiration (clock awaited)
                                      (res_renewExpiration res) |})
                            (res_renew res)
                     else renew (store awaited);
                   user := if truthy_opt truthy (res_user res)
                           then res_user res
                           else user (store awaited) |}
         /\ useIsAuthenticated s = true
         /\ useAuthToken s = Some (res_token res).
Proof.
  intros Hauth Hf. cbv zeta.
  unfold reconcile, renewTokenAsync, worldOf. simpl.
  rewrite Hauth, Hf. simpl. rewrite orb_true_r. simpl.
  split; [eexists; reflexivity|].
  destruct (f state None) as [res0|reason] eqn:Hres.
  - await_cases env; (split; [reflexivity|]);
      intros res [= <-]; eexists; (split; [reflexivity|]);
      (split; [|split; reflexivity]);
      unfold processResult_update; simpl;
      destruct (res_renew res0) as [rn|], (res_user res0) as [u|]; simpl;
      try destruct (truthy_string rn); try destruct (truthy u);
      reflexivity.
  - await_cases env;
      repeat match goal with
             | |- context [if ?c then _ else _] => destruct c; simpl
             end;
      (split; [reflexivity|]); intros res H; discriminate.
Qed.

Lemma pass_without_auth_renews_witness :
  invocations DoRenew
    (log (worldOf
            (exec (reconcile rejectingProps signedOut) []
               {| store := signedOut; isFirst := false; clock := 7;
                  log := [] |})))
  = [(signedOut, None)].
Proof.
  exact (proj1 (proj2
           (pass_without_auth_renews rejectingProps signedOut
              (fun _ _ => Failed (JStr "revoked")) []
              {| store := signedOut; isFirst := false; clock := 7;
                 log := [] |}
              eq_refl eq_refl))).
Defined.

Lemma invalid_reconciled (now : Z) (state : AuthState) :
  let s := reconciled state (invalid now (auth state))
             (invalid now (renew state)) in
  invalid now (auth s) = false /\ invalid now (renew s) = false.
Proof.
  unfold reconciled. simpl.
  destruct (invalid now (auth state)) eqn:Ha,
    (invalid now (renew state)) eqn:Hr; simpl; split;
    reflexivity || assumption.
Qed.

(** X15: Reconciliation settles: once [isFirst.current] is cleared, a pass
    that runs on the state a pass has just committed finds nothing
    invalid and, when the renewal is not available, commits nothing; so
    the effect on [state] does not feed itself. *)
Theorem reconcile_settles
    (props : AuthProviderProps) (state : AuthState)
    (env : list tick) (w : world) :
  isFirst w = false ->
  let s := reconciled state (invalid (clock w) (auth state))
             (invalid (clock w) (renew state)) in
  (forall f, doRenew props = Some f -> exists reason, f s None = Failed reason) ->
  let r := exec (reconcile props s) env w in
  outcomeOf r = Resolved tt
  /\ commits (log (worldOf r)) = commits (log w).
Proof.
  intros Hfirst s Hfail.
  pose proof (invalid_reconciled (clock w) state) as H.
  cbv zeta in H. fold s in H. destruct H as [Ha Hr]. clearbody s.
  destruct w as [st fi ck lg]. simpl in Hfirst, Ha, Hr. subst fi.
  unfold reconcile, renewTokenAsync, outcomeOf, worldOf. simpl.
  rewrite Ha, Hr. simpl.
  destruct (absent (auth s)); simpl.
  - destruct (doRenew props) as [f|]; simpl.
    + destruct (Hfail f eq_refl) as [reason ->].
      await_cases env; split; reflexivity.
    + destruct env as [|[? ? ?] env]; simpl; split; reflexivity.
  - split; reflexivity.
Qed.

Lemma reconcile_settles_witness :
  commits (log (worldOf
                  (exec (reconcile rejectingProps
                           (reconciled expiredState true false)) []
                     {| store := reconciled expiredState true false;
                        isFirst := false; clock := 2000; log := [] |})))
  = [].
Proof.
  refine (proj2 (reconcile_settles rejectingProps expiredState []
                   {| store := reconciled expiredState true false;
                      isFirst := false; clock := 2000; log := [] |}
                   eq_refl _)).
  intros f [= <-]. exists (JStr "revoked"). reflexivity.
Defined.

(** X16: A pass that ends with a fulfilled renewal returns before
    [isFirst.current = false]: the flag stays set (when no other pass ends
    meanwhile), and with [renewOnMount] the pass after it calls
    [renewTokenAsync] again, whatever state it runs on. *)
Theorem isFirst_survives_renewal
    (props : AuthProviderProps) (state : AuthState)
    (f : callback AuthActionResult) (res : AuthActionResult)
    (env : list tick) (w : world) :
  renewOnMount props = true ->
  isFirst w = true ->
  forallb (fun t => negb (ends_pass t)) env = true ->
  doRenew props = Some f ->
  f state None = Fulfilled res ->
  let w' := worldOf (exec (reconcile props state) env w) in
  isFirst w' = true
  /\ forall (state' : AuthState) (env' : list tick),
       renewAttempts
         (log (worldOf (exec (reconcile props state') env' w')))
       = S (renewAttempts (log w')).
Proof.
  intros Hmount Hfirst Henv Hf Hres.
  assert (Hpass : forall w0 state' env',
             isFirst w0 = true ->
             renewAttempts
               (log (worldOf (exec (reconcile props state') env' w0)))
             = S (renewAttempts (log w0))).
  { intros [st0 fi0 ck0 lg0] state' env' H0. simpl in H0. subst fi0.
    unfold reconcile, renewTokenAsync, worldOf. simpl.
    rewrite Hmount, Hf. simpl.
    destruct (f state' None) as [res'|reason]; await_cases env';
      repeat match goal with
             | |- context [if ?c then _ else _] => destruct c; simpl
             end; reflexivity. }
  assert (Hflag : isFirst (worldOf (exec (reconcile props state) env w))
                  = true).
  { destruct w as [st fi ck lg]. simpl in Hfirst. subst fi.
    unfold reconcile, renewTokenAsync, worldOf. simpl.
    rewrite Hmount, Hf. simpl. rewrite Hres.
    destruct env as [|[dt1 d1 e1] env]; simpl in *; [reflexivity|].
    destruct e1; [discriminate|].
    destruct env as [|[dt2 d2 e2] env]; simpl in *; [reflexivity|].
    destruct e2; [discriminate|]. reflexivity. }
  cbv zeta. split; [exact Hflag|].
  intros state' env'. apply Hpass. exact Hflag.
Qed.

Lemma isFirst_survives_renewal_witness :
  isFirst (worldOf (exec (reconcile renewingProps (defaultState renewingProps))
                      [] (mount renewingProps None 2000)))
  = true.
Proof.
  exact (proj1
           (isFirst_survives_renewal renewingProps
              (defaultState renewingProps)
              (fun _ _ => Fulfilled sampleResult) sampleResult []
              (mount renewingProps None 2000)
              eq_refl eq_refl eq_refl eq_refl eq_refl)).
Defined.

(** ** Notifications over a whole run *)

Section NotificationRuns.

Variable props : AuthProviderProps.

Lemma token_eqb_eq (a b : option Token) : token_eqb a b = true -> a = b.
Proof.
  destruct a as [x|], b as [y|]; simpl; try discriminate; [|reflexivity].
  intros H. apply String.eqb_eq in H. congruence.
Qed.

Lemma latestToken_app (d : option Token) (xs ys : list notice) :
  latestToken d (xs ++ ys) = latestToken (latestToken d xs) ys.
Proof. unfold latestToken. apply fold_left_app. Qed.

(** After a render the latest call carries the token of that render,
    provided the calls so far ended on the previous dependency. *)
Lemma renderNotify_latest (n : notifier) (s : AuthState) (d : option Token) :
  onTokenChange props = true ->
  lastDeps n = Some d ->
  latestToken d (snd (renderNotify props n s)) = useAuthToken s.
Proof.
  intros Hcb Hd. unfold renderNotify. rewrite Hd, Hcb. simpl.
  destruct (token_eqb d (useAuthToken s)) eqn:Heq; simpl.
  - apply token_eqb_eq in Heq. subst d. rewrite app_nil_r.
    destruct (useAuthToken s) as [t|]; [|reflexivity].
    destruct (truthy_string t && negb (mounted n)); reflexivity.
  - rewrite latestToken_app. reflexivity.
Qed.

Lemma notifyFrom_latest (states : list AuthState) :
  forall (n : notifier) (d : option Token),
    onTokenChange props = true ->
    lastDeps n = Some d ->
    latestToken d (concat (notifyFrom props n states))
    = fold_left (fun _ s => useAuthToken s) states d.
Proof.
  induction states as [|s states IH]; intros n d Hcb Hd; [reflexivity|].
  change (notifyFrom props n (s :: states))
    with (snd (renderNotify props n s)
          :: notifyFrom props (fst (renderNotify props n s)) states).
  rewrite concat_cons, latestToken_app.
  rewrite (renderNotify_latest n s d Hcb Hd).
  apply IH; [assumption|reflexivity].
Qed.

Lemma last_cons (states : list AuthState) :
  forall s d : AuthState, last (s :: states) d = last states s.
Proof.
  induction states as [|a states IH]; intros s d; [reflexivity|].
  change (last (s :: a :: states) d) with (last (a :: states) d).
  rewrite (IH a d), (IH a s). reflexivity.
Qed.

Lemma fold_left_last (states : list AuthState) :
  forall (s0 : AuthState),
    fold_left (fun _ s => useAuthToken s) states (useAuthToken s0)
    = useAuthToken (last states s0).
Proof.
  induction states as [|s states IH]; intros s0; [reflexivity|].
  simpl fold_left. rewrite IH. rewrite last_cons. reflexivity.
Qed.

Lemma notifyFrom_during (states : list AuthState) :
  forall n : notifier,
    length (filter isDuringRender (concat (notifyFrom props n states)))
    = if negb (mounted n) && onTokenChange props && existsb hasToken states
      then 1%nat else 0%nat.
Proof.
  induction states as [|s states IH]; intros n.
  - simpl. rewrite andb_false_r. reflexivity.
  - change (notifyFrom props n (s :: states))
      with (snd (renderNotify props n s)
            :: notifyFrom props (fst (renderNotify props n s)) states).
    rewrite concat_cons, filter_app, length_app, IH.
    unfold renderNotify, hasToken. simpl.
    destruct (useAuthToken s) as [t|]; simpl.
    + destruct (onTokenChange props), (truthy_string t), (mounted n);
        simpl; try reflexivity;
        destruct (lastDeps n) as [prev|]; simpl;
        try destruct (token_eqb prev (Some t)); simpl;
        try destruct (existsb _ states); reflexivity.
    + rewrite orb_false_r.
      destruct (onTokenChange props), (mounted n); simpl;
        destruct (lastDeps n) as [prev|]; simpl;
        try destruct (token_eqb prev None); simpl;
        try destruct (existsb _ states); reflexivity.
Qed.

End NotificationRuns.

(** X17: The notifications stay in step with the state: after any number of
    renders of a provider with [onTokenChange], at least one call has
    been made and the latest call carries the token of the state rendered
    last ([undefined] when that state has no auth bundle). *)
Theorem latest_notice_is_current
    (props : AuthProviderProps) (s0 : AuthState) (rest : list AuthState) :
  onTokenChange props = true ->
  let calls := concat (notifyTrace props (s0 :: rest)) in
  calls <> []
  /\ latestToken None calls = useAuthToken (last rest s0).
Proof.
  intros Hcb. cbv zeta. unfold notifyTrace.
  change (notifyFrom props unmounted (s0 :: rest))
    with (snd (renderNotify props unmounted s0)
          :: notifyFrom props (fst (renderNotify props unmounted s0)) rest).
  rewrite concat_cons. split.
  - unfold renderNotify. simpl. rewrite Hcb. simpl.
    destruct (useAuthToken s0) as [t|]; [destruct (truthy_string t)|];
      simpl; discriminate.
  - rewrite latestToken_app.
    assert (H0 : latestToken None (snd (renderNotify props unmounted s0))
                 = useAuthToken s0).
    { unfold renderNotify. simpl. rewrite Hcb. simpl.
      rewrite latestToken_app. reflexivity. }
    rewrite H0.
    rewrite (notifyFrom_latest props rest
               (fst (renderNotify props unmounted s0)) (useAuthToken s0)
               Hcb eq_refl).
    apply fold_left_last.
Qed.

Lemma latest_notice_is_current_witness :
  latestToken None
    (concat (notifyTrace sampleProps
               [signedOut;
                {| initialized := true;
                   auth := Some {| token := "abc"; expiresAt := None |};
                   renew := None; user := None |};
                signedOut]))
  = None.
Proof.
  exact (proj2
           (latest_notice_is_current sampleProps signedOut
              [{| initialized := true;
                  auth := Some {| token := "abc"; expiresAt := None |};
                  renew := None; user := None |};
               signedOut] eq_refl)).
Defined.

(** X18: Over any run of renders, [onTokenChange] is called during a render at
    most once: once if the callback is configured and some rendered state
    holds a non-empty token, never otherwise. *)
Theorem during_render_at_most_once
    (props : AuthProviderProps) (states : list AuthState) :
  length (filter isDuringRender (concat (notifyTrace props states)))
  = if onTokenChange props && existsb hasToken states then 1%nat else 0%nat.
Proof.
  unfold notifyTrace. rewrite notifyFrom_during. reflexivity.
Qed.

(** ** The [initialized] flag while no timer fires *)

Lemma clean_refl (w : world) : clean w w.
Proof.
  split; [exists []; split; [symmetry; apply app_nil_r|reflexivity]|].
  left; reflexivity.
Qed.

Lemma clean_trans (w1 w2 w3 : world) :
  clean w1 w2 -> clean w2 w3 -> clean w1 w3.
Proof.
  intros [[n1 [H1 F1]] S1] [[n2 [H2 F2]] S2]. split.
  - exists (n1 ++ n2). rewrite H2, H1, <- app_assoc. split; [reflexivity|].
    rewrite forallb_app, F1, F2. reflexivity.
  - destruct S2 as [S2|S2]; [|right; exact S2].
    rewrite S2. exact S1.
Qed.

Lemma clean_same (w w' : world) :
  commits (log w') = commits (log w) -> store w' = store w -> clean w w'.
Proof.
  intros Hc Hs. split; [|left; exact Hs].
  exists []. rewrite Hc, app_nil_r. split; reflexivity.
Qed.

Lemma clean_commit (u : setter) (w : world) :
  initialized (apply_setter u (clock w) (store w)) = true ->
  clean w (commit u w).
Proof.
  intros Hi. split; [|right; exact Hi].
  exists [apply_setter u (clock w) (store w)]. split; [reflexivity|].
  simpl. rewrite Hi. reflexivity.
Qed.

Ltac clean_step :=
  match goal with
  | |- clean ?w ?w => apply clean_refl
  | |- clean ?w (commit ?u ?w) => apply clean_commit; reflexivity
  | |- clean ?w (set_isFirst _ ?w') =>
      apply clean_trans with w';
      [clean_step|apply clean_same; reflexivity]
  | |- clean ?w (record _ ?w') =>
      apply clean_trans with w';
      [clean_step|apply clean_same; reflexivity]
  | |- clean ?w (commit ?u ?w') =>
      apply clean_trans with w';
      [clean_step|apply clean_commit; reflexivity]
  end.

Section Invariant.

Variable props : AuthProviderProps.

(** The continuation of a wrapped function after its callback. *)
Lemma settles_result_body :
  settles (fun o : outcome AuthActionResult =>
             bind match o with
                  | Resolved res => Ret res
                  | Rejected e => Throw e
                  end
                  (fun res => bind (processResult res) (fun _ => Ret res))).
Proof.
  intros [res|e] w; simpl; eexists; eexists; (split; [reflexivity|]);
    clean_step.
Qed.

Lemma goodBody_renewTokenAsync state input :
  goodBody pendingResult (renewTokenAsync props state input).
Proof.
  intros w. unfold renewTokenAsync.
  destruct (doRenew props) as [f|]; simpl; eexists; eexists;
    (split; [reflexivity|]); (split; [clean_step|]); simpl;
    [apply settles_result_body|exact I].
Qed.

Lemma goodBody_signInAsync state input :
  goodBody pendingResult (signInAsync props state input).
Proof.
  intros w. unfold signInAsync.
  destruct (devToken props) as [t|]; [destruct (truthy_string t)|];
    try (destruct (doSignIn props) as [f|]); simpl; eexists; eexists;
    (split; [reflexivity|]); (split; [clean_step|]); simpl;
    try apply settles_result_body; exact I.
Qed.

Lemma goodBody_signOutAsync state input :
  goodBody pendingVoid (signOutAsync props state input).
Proof.
  intros w. unfold signOutAsync.
  destruct (doSignOut props) as [f|]; simpl; eexists; eexists;
    (split; [reflexivity|]); (split; [clean_step|]); simpl; [|exact I].
  intros o w0. simpl. eexists; eexists; (split; [reflexivity|]).
  clean_step.
Qed.

Lemma goodTask_setAuth res : goodTask (setAuth res).
Proof.
  intros w. simpl. eexists; eexists; (split; [reflexivity|]).
  split; [clean_step|exact I].
Qed.

Lemma goodTask_reconcile state : goodTask (reconcile props state).
Proof.
  intros w. unfold reconcile. simpl.
  destruct ((isFirst w && renewOnMount props) || absent (auth state)
            || invalid (clock w) (auth state)); simpl.
  - eexists; eexists; (split; [reflexivity|]). split; [clean_step|].
    split; [apply goodBody_renewTokenAsync|].
    intros [res|e] w0; simpl.
    + eexists; eexists; (split; [reflexivity|]). clean_step.
    + destruct (isFirst w0 || invalid (clock w) (auth state)
                || invalid (clock w) (renew state)); simpl;
        eexists; eexists; (split; [reflexivity|]); clean_step.
  - destruct (isFirst w || invalid (clock w) (auth state)
              || invalid (clock w) (renew state)); simpl;
      eexists; eexists; (split; [reflexivity|]);
      (split; [clean_step|exact I]).
Qed.

Lemma goodTask_settled {R : Type} (k : outcome R -> prog unit) o :
  settles k -> goodTask (k o).
Proof.
  intros Hk w. destruct (Hk o w) as (o' & w' & Ha & Hc).
  exists (Done o'), w'. split; [exact Ha|]. split; [exact Hc|exact I].
Qed.

Lemma share_good {R : Type} (pending : status R -> option (running R))
    (slot : option (flight R)) (body : prog R) (wt : waiter R)
    (w w' : world) (fl : flight R) :
  goodSlot slot -> goodWaiter wt -> goodBody pending body ->
  share pending slot body wt w = Some (fl, w') ->
  goodSlot (Some fl) /\ clean w w'.
Proof.
  intros Hslot Hwt Hbody. unfold share.
  destruct slot as [fl0|].
  - intros [= <- <-]. destruct Hslot as [Hr Hws]. simpl.
    split; [split; [exact Hr|]|apply clean_refl].
    apply Forall_app. split; [exact Hws|]. constructor; [exact Hwt|constructor].
  - destruct (Hbody w) as (st & w1 & Ha & Hc & Hp). rewrite Ha.
    destruct (pending st) as [r|]; [|discriminate].
    intros [= <- <-]. simpl. split; [split; [exact Hp|]|exact Hc].
    constructor; [exact Hwt|constructor].
Qed.

Lemma spawn_good (task : prog unit) (m m' : machine) :
  goodFlights m -> goodTask task ->
  spawn task m = Some m' ->
  goodFlights m' /\ clean m m'.
Proof.
  intros (Hin & Hrn & Hout) Htask. unfold spawn.
  destruct (Htask m) as (st & w1 & Ha & Hc & Hst). rewrite Ha.
  destruct st as [o|o k|o k|body k]; try discriminate.
  - intros [= <-]. split; [|exact Hc].
    unfold goodFlights. simpl. auto.
  - destruct Hst as [Hbody Hk].
    destruct (share pendingResult (renewFlight m) body (Continuation k) w1)
      as [[fl w2]|] eqn:Hshare; [|discriminate].
    intros [= <-].
    destruct (share_good pendingResult (renewFlight m) body (Continuation k)
                w1 w2 fl Hrn Hk Hbody Hshare) as [Hfl Hc2].
    split; [unfold goodFlights; simpl; auto|].
    simpl. apply clean_trans with w1; assumption.
Qed.

Lemma deliver_good {R : Type} (p : R -> option AuthActionResult)
    (o : outcome R) (ws : list (waiter R)) :
  forall m m' : machine,
    goodFlights m -> Forall goodWaiter ws ->
    deliver p o ws m = Some m' ->
    goodFlights m' /\ clean m m'.
Proof.
  induction ws as [|[k|id] ws IH]; intros m m' Hm Hws; simpl.
  - intros [= <-]. split; [exact Hm|apply clean_refl].
  - destruct (spawn (k o) m) as [m1|] eqn:Hsp; [|discriminate].
    intros Hd. inversion Hws as [|? ? Hk Hws']; subst.
    destruct (spawn_good (k o) m m1 Hm (goodTask_settled k o Hk) Hsp)
      as [Hm1 Hc1].
    destruct (IH m1 m' Hm1 Hws' Hd) as [Hm' Hc'].
    split; [exact Hm'|]. apply clean_trans with m1; assumption.
  - intros Hd. inversion Hws as [|? ? _ Hws']; subst.
    assert (Hm0 : goodFlights
                    (with_world m (record (Observed id (payload p o)) m))).
    { destruct Hm as (A & B & C). unfold goodFlights. simpl. auto. }
    destruct (IH _ m' Hm0 Hws' Hd) as [Hm' Hc'].
    split; [exact Hm'|].
    eapply clean_trans; [|exact Hc']. apply clean_same; reflexivity.
Qed.

Lemma finish_good {R : Type} (r : running R) (w w' : world) (o : outcome R) :
  goodRunning r -> finish r w = Some (o, w') -> clean w w'.
Proof.
  destruct r as [o0 k|o0]; simpl.
  - intros Hk. destruct (Hk o0 w) as (o1 & w1 & Ha & Hc). rewrite Ha.
    intros [= <- <-]. exact Hc.
  - intros _ [= <- <-]. apply clean_refl.
Qed.

Lemma step_good (l : label) (m m' : machine) :
  timerLabel l = false ->
  goodFlights m ->
  step props l m = Some m' ->
  goodFlights m' /\ clean m m'.
Proof.
  intros Hl Hm.
  pose proof Hm as (Hin & Hrn & Hout).
  destruct l as [| ms | | | | id input | id input | id input | res | op];
    simpl in *; try discriminate.
  - intros [= <-]. split; [exact Hm|apply clean_refl].
  - destruct (0 <=? ms); [|discriminate]. intros [= <-].
    split; [exact Hm|apply clean_same; reflexivity].
  - apply spawn_good; [exact Hm|apply goodTask_reconcile].
  - destruct (share pendingResult (signInFlight m) _ _ _)
      as [[fl w]|] eqn:Hs; [|discriminate]. intros [= <-].
    destruct (share_good pendingResult (signInFlight m) _ (Caller id) m w fl Hin I
                (goodBody_signInAsync (rendered m) input) Hs) as [Hfl Hc].
    split; [unfold goodFlights; simpl; auto|exact Hc].
  - destruct (share pendingResult (renewFlight m) _ _ _)
      as [[fl w]|] eqn:Hs; [|discriminate]. intros [= <-].
    destruct (share_good pendingResult (renewFlight m) _ (Caller id) m w fl Hrn I
                (goodBody_renewTokenAsync (rendered m) input) Hs) as [Hfl Hc].
    split; [unfold goodFlights; simpl; auto|exact Hc].
  - destruct (share pendingVoid (signOutFlight m) _ _ _)
      as [[fl w]|] eqn:Hs; [|discriminate]. intros [= <-].
    destruct (share_good pendingVoid (signOutFlight m) _ (Caller id) m w fl Hout I
                (goodBody_signOutAsync (rendered m) input) Hs) as [Hfl Hc].
    split; [unfold goodFlights; simpl; auto|exact Hc].
  - apply spawn_good; [exact Hm|apply goodTask_setAuth].
  - destruct op.
    + destruct (signInFlight m) as [fl|] eqn:Hfl; [|discriminate].
      destruct Hin as [Hr Hws].
      destruct (finish (runs fl) m) as [[o w]|] eqn:Hf; [|discriminate].
      intros Hd.
      pose proof (finish_good _ _ _ _ Hr Hf) as Hc.
      destruct (deliver_good Some o (waiters fl) (with_signIn m w None) m')
        as [Hm' Hc']; try assumption.
      { unfold goodFlights; simpl; auto. }
      split; [exact Hm'|]. apply clean_trans with w; assumption.
    + destruct (renewFlight m) as [fl|] eqn:Hfl; [|discriminate].
      destruct Hrn as [Hr Hws].
      destruct (finish (runs fl) m) as [[o w]|] eqn:Hf; [|discriminate].
      intros Hd.
      pose proof (finish_good _ _ _ _ Hr Hf) as Hc.
      destruct (deliver_good Some o (waiters fl) (with_renew m w None) m')
        as [Hm' Hc']; try assumption.
      { unfold goodFlights; simpl; auto. }
      split; [exact Hm'|]. apply clean_trans with w; assumption.
    + destruct (signOutFlight m) as [fl|] eqn:Hfl; [|discriminate].
      destruct Hout as [Hr Hws].
      destruct (finish (runs fl) m) as [[o w]|] eqn:Hf; [|discriminate].
      intros Hd.
      pose proof (finish_good _ _ _ _ Hr Hf) as Hc.
      destruct (deliver_good (fun _ : unit => None) o (waiters fl)
                  (with_signOut m w None) m')
        as [Hm' Hc']; try assumption.
      { unfold goodFlights; simpl; auto. }
      split; [exact Hm'|]. apply clean_trans with w; assumption.
Qed.

Lemma run_good (ls : list label) :
  forall m m' : machine,
    forallb (fun l => negb (timerLabel l)) ls = true ->
    goodFlights m ->
    run props ls m = Some m' ->
    goodFlights m' /\ clean m m'.
Proof.
  induction ls as [|l ls IH]; intros m m' Hls Hm; simpl.
  - intros [= <-]. split; [exact Hm|apply clean_refl].
  - simpl in Hls. apply andb_prop in Hls. destruct Hls as [Hl Hls].
    apply negb_true_iff in Hl.
    destruct (step props l m) as [m1|] eqn:Hstep; [|discriminate].
    intros Hrun.
    destruct (step_good l m m1 Hl Hm Hstep) as [Hm1 Hc1].
    destruct (IH m1 m' Hls Hm1 Hrun) as [Hm' Hc'].
    split; [exact Hm'|]. apply clean_trans with m1; assumption.
Qed.

End Invariant.

(** X19: As long as no timer fires, [initialized] never goes back: along any
    run of renders, effects, calls of the operations (overlapping or not),
    [setAuth] and settlements from the mount on, every state handed to the
    store has [initialized = true], and once the stored state is
    initialized it stays so. *)
Theorem initialized_kept_without_timers
    (props : AuthProviderProps) (stored : option AuthState) (now : Z)
    (ls1 ls2 : list label) (m1 m2 : machine) :
  forallb (fun l => negb (timerLabel l)) (ls1 ++ ls2) = true ->
  run props ls1 (mount props stored now) = Some m1 ->
  run props ls2 m1 = Some m2 ->
  forallb initialized (commits (log m2)) = true
  /\ (initialized (store m1) = true -> initialized (store m2) = true).
Proof.
  intros Hls H1 H2. rewrite forallb_app in Hls.
  apply andb_prop in Hls. destruct Hls as [Hls1 Hls2].
  assert (H0 : goodFlights (mount props stored now)) by (repeat split).
  destruct (run_good props ls1 _ m1 Hls1 H0 H1) as [Hm1 Hc1].
  destruct (run_good props ls2 m1 m2 Hls2 Hm1 H2) as [Hm2 Hc2].
  split.
  - destruct (clean_trans _ _ _ Hc1 Hc2) as [[news [Hn Hf]] _].
    rewrite Hn. exact Hf.
  - intros Hi. destruct Hc2 as [_ [Hs|Hs]]; [rewrite Hs|]; assumption.
Qed.

Lemma initialized_kept_without_timers_witness :
  exists m2 : machine,
    run sampleProps [CallSignOut 1 None; Settle OpSignOut; Render;
                     RunReconcile; Settle OpRenew]
      match run sampleProps [RunReconcile; Settle OpRenew; Render]
              (mount sampleProps None 0) with
      | Some m1 => m1
      | None => mount sampleProps None 0
      end = Some m2
    /\ forallb initialized (commits (log m2)) = true.
Proof.
  eexists. split; [vm_compute; reflexivity|].
  refine (proj1
            (initialized_kept_without_timers sampleProps None 0
               [RunReconcile; Settle OpRenew; Render]
               [CallSignOut 1 None; Settle OpSignOut; Render;
                RunReconcile; Settle OpRenew]
               _ _ eq_refl _ _));
    vm_compute; reflexivity.
Defined.

(** ** Operations one after the other *)

(** X20: A sign-in followed, after the provider has rendered, by a renewal:
    [doRenew] receives the state that the sign-in committed (with the
    renew bundle and the user the sign-in brought), each caller receives
    the result of its own operation, and the store ends with the result of
    the renewal merged over the state of the sign-in. *)
Theorem signIn_then_renew
    (props : AuthProviderProps) (f g : callback AuthActionResult)
    (r1 r2 : AuthActionResult) (stored : option AuthState) (now : Z)
    (id1 id2 : nat) (i1 i2 : option jsval) :
  devTokenInUse props = None ->
  doSignIn props = Some f -> doRenew props = Some g ->
  let s0 := store (mount props stored now) in
  let s1 := processResult_update r1 now s0 in
  f s0 i1 = Fulfilled r1 ->
  g s1 i2 = Fulfilled r2 ->
  exists m,
    run props [CallSignIn id1 i1; Settle OpSignIn; Render;
               CallRenewToken id2 i2; Settle OpRenew]
      (mount props stored now) = Some m
    /\ invocations DoRenew (log m) = [(s1, i2)]
    /\ store m = processResult_update r2 now s1
    /\ observations (log m)
       = [(id1, Resolved (Some r1)); (id2, Resolved (Some r2))].
Proof.
  intros Hdev Hf Hg s0 s1 H1 H2. subst s1 s0.
  unfold mount in *. cbn [store mworld] in *.
  set (s0 := match stored with Some s => s | None => defaultState props end)
    in *.
  cbn [run step signInFlight renewFlight rendered mworld]. unfold share.
  rewrite (signInAsync_real props _ i1 Hdev), Hf.
  cbn [advance bind await pendingResult with_signIn signInFlight runs waiters
       finish rendered mworld store].
  rewrite H1.
  cbn [settle bind advance processResult setState deliver with_world
       with_signIn mworld rendered renewFlight commit store clock record
       apply_setter isFirst log].
  unfold renewTokenAsync. rewrite Hg.
  cbn [advance bind await pendingResult with_renew renewFlight runs waiters
       finish rendered mworld store].
  rewrite H2.
  cbn [settle bind advance processResult setState deliver with_world
       with_renew mworld rendered renewFlight commit store clock record
       apply_setter isFirst log].
  eexists. split; [reflexivity|].
  split; [reflexivity|]. split; reflexivity.
Qed.

Lemma signIn_then_renew_witness :
  exists m,
    run sampleProps [CallSignIn 1 None; Settle OpSignIn; Render;
                     CallRenewToken 2 None; Settle OpRenew]
      (mount sampleProps None 0) = Some m
    /\ invocations DoRenew (log m)
       = [(processResult_update sampleResult 0 (defaultState sampleProps),
           None)]
    /\ store m
       = processResult_update sampleResult 0
           (processResult_update sampleResult 0 (defaultState sampleProps))
    /\ observations (log m)
       = [(1%nat, Resolved (Some sampleResult));
          (2%nat, Resolved (Some sampleResult))].
Proof.
  exact (signIn_then_renew sampleProps
           (fun _ _ => Fulfilled sampleResult)
           (fun _ _ => Fulfilled sampleResult)
           sampleResult sampleResult None 0 1%nat 2%nat None None
           eq_refl eq_refl eq_refl eq_refl eq_refl).
Defined.

(** ** Mounting with a development token *)

(** X21: [devSignedIn] with a development token in use and nothing stored: the
    provider mounts authenticated and initialized with a bundle that is
    valid at every time, and without [renewOnMount] the first pass calls
    no renewal and commits that same state.  A stored state takes
    precedence over this default. *)
Theorem devSignedIn_mounts_authenticated
    (props : AuthProviderProps) (t : string) (now : Z) :
  devTokenInUse props = Some t ->
  devSignedIn props = true ->
  let m := mount props None now in
  store m = {| initialized := true;
               auth := Some {| token := t; expiresAt := None |};
               renew := None; user := None |}
  /\ useIsAuthenticated (store m) = true
  /\ (forall time, invalid time (auth (store m)) = false)
  /\ (renewOnMount props = false ->
      forall env,
        exec (reconcile props (store m)) env m
        = (Resolved tt,
           {| store := store m; isFirst := false; clock := now;
              log := [Committed (store m)] |}, env))
  /\ forall s, store (mount props (Some s) now) = s.
Proof.
  unfold devTokenInUse, mount, defaultState.
  destruct (devToken props) as [t'|]; [|discriminate].
  destruct (truthy_string t') eqn:Ht; [|discriminate].
  intros [= ->] ->. simpl.
  split; [reflexivity|]. split; [reflexivity|].
  assert (Hv : forall time,
             isTokenBundleValid time {| token := t; expiresAt := None |}
             = true).
  { intros time. unfold isTokenBundleValid. simpl. rewrite Ht. reflexivity. }
  split; [intros time; simpl; rewrite Hv; reflexivity|].
  split; [|reflexivity].
  intros Hmount env. unfold reconcile. simpl. rewrite Hmount, Hv. simpl.
  reflexivity.
Qed.

Lemma devSignedIn_mounts_authenticated_witness :
  let props := {| devToken := Some "dev"; devSignedIn := true;
                  devUser := None; doSignIn := None; doRenew := None;
                  doSignOut := None; onTokenChange := false;
                  renewOnMount := false |} in
  useIsAuthenticated (store (mount props None 0)) = true.
Proof.
  cbv zeta.
  exact (proj1 (proj2
           (devSignedIn_mounts_authenticated
              {| devToken := Some "dev"; devSignedIn := true;
                 devUser := None; doSignIn := None; doRenew := None;
                 doSignOut := None; onTokenChange := false;
                 renewOnMount := false |} "dev" 0 eq_refl eq_refl))).
Defined.

(** * The [initialized] flag, timers included *)






Section FlightsBy.

Variable rel : world -> world -> Prop.
Hypothesis rel_refl : forall w, rel w w.
Hypothesis rel_trans : forall w1 w2 w3, rel w1 w2 -> rel w2 w3 -> rel w1 w3.
Hypothesis rel_observed :
  forall w id o, rel w (record (Observed id o) w).






End FlightsBy.


Section SteadyProvider.

Variable props : AuthProviderProps.















End SteadyProvider.




(** * The reconciliation pass, part by part *)



